(** * homelab-agent: a shallow embedding of [homelab-agent.py]

    The agent samples host metrics, builds a JSON payload and POSTs it to the
    collector in a loop with exponential backoff, until a termination signal
    sets the module-level flag [_shutdown].

    Conventions of the embedding:
    - Python [int] is [Z]; durations and the clock are [N], in milliseconds;
    - [os.environ] is a [gmap string string], the [headers] dict likewise;
    - Python [set] of mount points is a [gset string];
    - [backoff] is a Python float that only ever holds 1.0, 2.0, 4.0, ... or
      60.0; it is kept as the whole number of seconds it denotes;
    - everything read from the operating system ([psutil], [os.access], the
      HTTP exchange, the arrival of a signal) is an input of the model. *)

From Stdlib Require Import ZArith NArith Lia List Ascii String.
From stdpp Require Import gmap strings list.
Import ListNotations.

Local Open Scope Z_scope.

(** ** Small pieces of the Python runtime *)

Module Py.

(** [s.rstrip("/")]: drop every trailing slash. *)
Fixpoint rstrip_slash (s : string) : string :=
  match s with
  | EmptyString => EmptyString
  | String c r =>
      match rstrip_slash r with
      | EmptyString => if Ascii.eqb c "/"%char then EmptyString else String c EmptyString
      | r' => String c r'
      end
  end.

(** [c.lower()] on an ASCII letter; other bytes are left alone. *)
Definition lower_ascii (c : ascii) : ascii :=
  let n := nat_of_ascii c in
  if (65 <=? n)%nat && (n <=? 90)%nat then ascii_of_nat (n + 32) else c.

(** [s.lower()]. *)
Fixpoint lower (s : string) : string :=
  match s with
  | EmptyString => EmptyString
  | String c r => String (lower_ascii c) (lower r)
  end.

(** [s.startswith(p)]. *)
Definition startswith (s p : string) : bool := String.prefix p s.

(** Truthiness of a string: [bool(s)]. *)
Definition truthy (s : string) : bool :=
  match s with EmptyString => false | String _ _ => true end.

(** [s[:n]]. *)
Definition take_str (n : nat) (s : string) : string := String.substring 0 n s.

(** [os.getenv(key, default)]. *)
Definition getenv_default (env : gmap string string) (key default : string) : string :=
  match env !! key with
  | Some v => v
  | None => default
  end.

(** [os.getenv(key)], [None] when the variable is unset. *)
Definition getenv (env : gmap string string) (key : string) : option string :=
  env !! key.

End Py.

(** ** Module-level configuration (lines 51-59) *)

(** The settings the module computes when it is loaded.  [POST_INTERVAL] and
    [PROCESS_LIMIT] hold the results of [int(os.getenv(...))]. *)
Record Config := mkConfig {
  BASE_URL : string;
  API_PREFIX : string;
  ENDPOINT : string;
  SERVER_NAME : string;
  POST_INTERVAL : Z;
  PROCESS_LIMIT : Z;
  API_TOKEN : option string
}.

(** [os.uname().nodename if hasattr(os, "uname") else "unknown"]:
    [nodename] is [None] on a platform without [os.uname]. *)
Definition default_server_name (nodename : option string) : string :=
  match nodename with
  | Some h => h
  | None => "unknown"%string
  end.

(** The module-level assignments.  [post_interval] and [process_limit] are the
    integers that [int(...)] returns for the two numeric variables. *)
Definition load_config (env : gmap string string) (nodename : option string)
    (post_interval process_limit : Z) : Config :=
  {| BASE_URL := Py.rstrip_slash (Py.getenv_default env "HOMELAB_DB_BASE_URL" "http://cluster-1-pi5:8000");
     API_PREFIX := Py.rstrip_slash (Py.getenv_default env "HOMELAB_DB_API_PREFIX" "/api/v1");
     ENDPOINT := Py.getenv_default env "HOMELAB_DB_ENDPOINT" "/metrics/";
     SERVER_NAME := Py.getenv_default env "SERVER_NAME" (default_server_name nodename);
     POST_INTERVAL := post_interval;
     PROCESS_LIMIT := process_limit;
     API_TOKEN := Py.getenv env "API_TOKEN" |}.

(** [POST_URL = f"{BASE_URL}{API_PREFIX}{ENDPOINT}"]. *)
Definition POST_URL (cfg : Config) : string :=
  (BASE_URL cfg ++ API_PREFIX cfg ++ ENDPOINT cfg)%string.

(** The [headers] dict built at the top of [_post_loop] (lines 155-157). *)
Definition request_headers (cfg : Config) : gmap string string :=
  let headers : gmap string string := {[ "Content-Type"%string := "application/json"%string ]} in
  match API_TOKEN cfg with
  | Some tok =>
      if Py.truthy tok
      then <[ "Authorization"%string := ("Bearer " ++ tok)%string ]> headers
      else headers
  | None => headers
  end.

(** ** What one sampling reads from the host *)

(** An entry of [psutil.disk_partitions(all=False)]. *)
Record Partition := mkPartition {
  device : string;
  mountpoint : string;
  fstype : string;
  opts : string
}.

(** A process yielded by [psutil.process_iter(attrs=["name", "cmdline"])]:
    either its [info] dict, or a process whose access raises
    [NoSuchProcess] or [AccessDenied] inside the [try]. *)
Inductive ProcEntry :=
| ProcInfo (name : option string) (cmdline : option (list string))
| ProcRaises.

(** Everything [_collect_metrics] reads in one call.  The two percentages are
    the values of [int(round(...))], [uptime_raw] that of
    [int(time.time() - boot_time)]; [disk_usage m] is [None] when
    [psutil.disk_usage(m)] raises. *)
Record Host := mkHost {
  cpu_percent : Z;
  mem_percent : Z;
  partitions : list Partition;
  readable : string -> bool;
  disk_usage : string -> option Z;
  bytes_recv : Z;
  bytes_sent : Z;
  uptime_raw : Z;
  processes : list ProcEntry
}.

(** ** Disk usage (lines 69-96) *)

Definition pseudo_prefixes : list string :=
  ["proc"; "sysfs"; "devfs"; "tmpfs"; "devtmpfs"; "overlay"]%string.

(** [any(p.fstype.lower().startswith(x) for x in (...))]. *)
Definition is_pseudo (p : Partition) : bool :=
  existsb (Py.startswith (Py.lower (fstype p))) pseudo_prefixes.

(** The [for p in psutil.disk_partitions(all=False)] loop, threading [mounts]. *)
Fixpoint mounts_loop (h : Host) (ps : list Partition) (mounts : gset string) : gset string :=
  match ps with
  | [] => mounts
  | p :: rest =>
      if is_pseudo p then mounts_loop h rest mounts
      else if negb (readable h (mountpoint p)) then mounts_loop h rest mounts
      else mounts_loop h rest ({[ mountpoint p ]} ∪ mounts)
  end.

Definition _unique_mountpoints (h : Host) : gset string :=
  {[ "/"%string ]} ∪ mounts_loop h (partitions h) ∅.

(** One iteration of the loop of [_disk_used_bytes] on the pair
    [(total_used, seen)]; a raising [psutil.disk_usage] leaves both alone. *)
Definition disk_step (h : Host) (acc : Z * gset string) (m : string) : Z * gset string :=
  let '(total_used, seen) := acc in
  if decide (m ∈ seen) then acc
  else match disk_usage h m with
       | Some used => (total_used + used, {[ m ]} ∪ seen)
       | None => acc
       end.

Definition _disk_used_bytes (h : Host) : Z :=
  fst (fold_left (disk_step h) (elements (_unique_mountpoints h)) (0, ∅)).

(** ** Process names (lines 99-111) *)

(** [proc.info.get("name") or (proc.info.get("cmdline") or ["unknown"])[0]],
    followed by [if not name: name = "unknown"]. *)
Definition proc_name (name : option string) (cmdline : option (list string)) : string :=
  let first :=
    match name with
    | Some n => if Py.truthy n then Some n else None
    | None => None
    end in
  let chosen :=
    match first with
    | Some n => n
    | None =>
        match cmdline with
        | Some (arg0 :: _) => arg0
        | Some [] | None => "unknown"%string
        end
    end in
  if Py.truthy chosen then chosen else "unknown"%string.

(** The [for proc in psutil.process_iter(...)] loop, threading [names]. *)
Fixpoint names_loop (limit : Z) (procs : list ProcEntry) (names : list string) : list string :=
  match procs with
  | [] => names
  | ProcRaises :: rest => names_loop limit rest names
  | ProcInfo name cmdline :: rest =>
      let names' := names ++ [proc_name name cmdline] in
      if Z.of_nat (length names') >=? limit then names'
      else names_loop limit rest names'
  end.

Definition _running_process_names (limit : Z) (procs : list ProcEntry) : list string :=
  names_loop limit procs [].

(** ** [json.dumps] of a list of strings, with [ensure_ascii=False] *)

Module Json.

Definition dquote : ascii := "034"%char.
Definition backslash : ascii := "092"%char.

Definition hex_digit (n : nat) : ascii :=
  match String.get n "0123456789abcdef" with
  | Some c => c
  | None => "0"%char
  end.

(** The escape table of the encoder: the quote, the backslash and the
    control characters below 0x20; every other character is copied. *)
Definition escape_char (c : ascii) : string :=
  let n := nat_of_ascii c in
  if (n =? 34)%nat then String backslash (String dquote EmptyString)
  else if (n =? 92)%nat then String backslash (String backslash EmptyString)
  else if (n =? 8)%nat then String backslash "b"
  else if (n =? 12)%nat then String backslash "f"
  else if (n =? 10)%nat then String backslash "n"
  else if (n =? 13)%nat then String backslash "r"
  else if (n =? 9)%nat then String backslash "t"
  else if (n <? 32)%nat then
    String backslash
      (String "u" (String "0" (String "0"
        (String (hex_digit (n / 16)) (String (hex_digit (n mod 16)) EmptyString)))))
  else String c EmptyString.

Fixpoint escape (s : string) : string :=
  match s with
  | EmptyString => EmptyString
  | String c r => (escape_char c ++ escape r)%string
  end.

Definition dumps_string (s : string) : string :=
  String dquote (escape s ++ String dquote EmptyString).

(** Items are joined with the default separator, a comma and a space. *)
Fixpoint dumps_items (l : list string) : string :=
  match l with
  | [] => EmptyString
  | [s] => dumps_string s
  | s :: rest => (dumps_string s ++ ", " ++ dumps_items rest)%string
  end.

Definition dumps (l : list string) : string :=
  ("[" ++ dumps_items l ++ "]")%string.

(** *** Decoding

    [json.loads] restricted to arrays of strings, as one pass of a state
    machine over the text.  A document that is valid JSON of another shape
    is rejected, and so is a [\u] escape above 0x7f, which needs more than
    one byte. *)

Inductive PState :=
| Start
| Opened
| AfterComma
| InStr (acc : list ascii)
| Esc (acc : list ascii)
| Hex (digits : nat) (v : nat) (acc : list ascii)
| AfterItem
| Closed.

Definition is_ws (c : ascii) : bool :=
  let n := nat_of_ascii c in
  (n =? 32)%nat || (n =? 9)%nat || (n =? 10)%nat || (n =? 13)%nat.

Definition hex_value (c : ascii) : option nat :=
  let n := nat_of_ascii c in
  if (48 <=? n)%nat && (n <=? 57)%nat then Some (n - 48)%nat
  else if (97 <=? n)%nat && (n <=? 102)%nat then Some (n - 87)%nat
  else if (65 <=? n)%nat && (n <=? 70)%nat then Some (n - 55)%nat
  else None.

Definition unescape (c : ascii) : option ascii :=
  let n := nat_of_ascii c in
  if (n =? 34)%nat then Some dquote
  else if (n =? 92)%nat then Some backslash
  else if (n =? 47)%nat then Some "/"%char
  else if (n =? 98)%nat then Some "008"%char
  else if (n =? 102)%nat then Some "012"%char
  else if (n =? 110)%nat then Some "010"%char
  else if (n =? 114)%nat then Some "013"%char
  else if (n =? 116)%nat then Some "009"%char
  else None.

Definition string_of_rev (acc : list ascii) : string :=
  string_of_list_ascii (rev acc).

(** One character of input: the next state and the items decoded so far,
    or [None] on a syntax error. *)
Definition pstep (st : PState) (items : list string) (c : ascii)
    : option (PState * list string) :=
  match st with
  | Start =>
      if is_ws c then Some (Start, items)
      else if Ascii.eqb c "["%char then Some (Opened, items)
      else None
  | Opened =>
      if is_ws c then Some (Opened, items)
      else if Ascii.eqb c "]"%char then Some (Closed, items)
      else if Ascii.eqb c dquote then Some (InStr [], items)
      else None
  | AfterComma =>
      if is_ws c then Some (AfterComma, items)
      else if Ascii.eqb c dquote then Some (InStr [], items)
      else None
  | InStr acc =>
      if Ascii.eqb c dquote then Some (AfterItem, items ++ [string_of_rev acc])
      else if Ascii.eqb c backslash then Some (Esc acc, items)
      else if (nat_of_ascii c <? 32)%nat then None
      else Some (InStr (c :: acc), items)
  | Esc acc =>
      if Ascii.eqb c "u"%char then Some (Hex 4 0 acc, items)
      else match unescape c with
           | Some d => Some (InStr (d :: acc), items)
           | None => None
           end
  | Hex digits v acc =>
      match hex_value c with
      | Some d =>
          let v' := (v * 16 + d)%nat in
          match digits with
          | 1%nat => if (v' <? 128)%nat then Some (InStr (ascii_of_nat v' :: acc), items) else None
          | _ => Some (Hex (Nat.pred digits) v' acc, items)
          end
      | None => None
      end
  | AfterItem =>
      if is_ws c then Some (AfterItem, items)
      else if Ascii.eqb c ","%char then Some (AfterComma, items)
      else if Ascii.eqb c "]"%char then Some (Closed, items)
      else None
  | Closed =>
      if is_ws c then Some (Closed, items) else None
  end.

Fixpoint prun (s : string) (st : PState) (items : list string) : option (list string) :=
  match s with
  | EmptyString =>
      match st with
      | Closed => Some items
      | _ => None
      end
  | String c r =>
      match pstep st items c with
      | Some (st', items') => prun r st' items'
      | None => None
      end
  end.

Definition loads (s : string) : option (list string) := prun s Start [].

End Json.

(** ** The payload (lines 114-150) *)

Record Payload := mkPayload {
  server_name : string;
  cpu_usage : Z;
  memory_usage : Z;
  disk_space_used : Z;
  network_traffic_in : Z;
  network_traffic_out : Z;
  uptime : Z;
  status : string;
  running_processes : string
}.

Definition _collect_metrics (cfg : Config) (h : Host) : Payload :=
  let cpu := cpu_percent h in
  let mem := mem_percent h in
  let disk := _disk_used_bytes h in
  let network_in := bytes_recv h in
  let network_out := bytes_sent h in
  let up := uptime_raw h in
  let procs := _running_process_names (PROCESS_LIMIT cfg) (processes h) in
  let running_processes_json := Json.dumps procs in
  {| server_name := SERVER_NAME cfg;
     cpu_usage := Z.max 0 (Z.min cpu 100);
     memory_usage := Z.max 0 (Z.min mem 100);
     disk_space_used := Z.max 0 disk;
     network_traffic_in := Z.max 0 network_in;
     network_traffic_out := Z.max 0 network_out;
     uptime := Z.max 0 up;
     status := "running";
     running_processes := running_processes_json |}.

(** ** The delivery loop (lines 153-184) *)

Local Open Scope N_scope.

(** What [session.post] does: it returns a response, or raises a
    [requests.RequestException]. *)
Inductive Outcome :=
| Response (status_code : Z) (text : string)
| RequestException (msg : string).

(** The environment of one run.  [signal_at] is the time at which the first
    of SIGINT, SIGTERM or SIGHUP is delivered, when one is: the handler
    [_handle_shutdown] then sets [_shutdown], and nothing clears it.  The
    other fields are indexed by the cycle number: what the sampling reads,
    how long it takes beyond the 0.3 s window of [psutil.cpu_percent], and
    what the POST does and how long it takes. *)
Record World := mkWorld {
  signal_at : option N;
  host_at : nat -> Host;
  sample_extra_ms : nat -> N;
  outcome_at : nat -> Outcome;
  post_ms : nat -> N
}.

(** The lines written to [sys.stderr]. *)
Inductive Diagnostic :=
| HttpError (url : string) (status_code : Z) (excerpt : string)
| PostError (msg : string).

(** What the loop does, each with the time at which it starts. *)
Inductive Event :=
| EvSample (t : N)
| EvPost (t : N) (url : string) (headers : gmap string string) (body : Payload)
| EvStderr (t : N) (d : Diagnostic)
| EvBackoffSleep (t : N) (secs : N)
| EvIntervalSleep (t : N).

(** The local state of [_post_loop]: the clock, the [backoff] variable, the
    number of cycles behind it and the events so far, oldest first. *)
Record State := mkState {
  now : N;
  backoff : N;
  cycle : nat;
  trace : list Event
}.

Definition backoff_max : N := 60.

Definition initial_state : State :=
  {| now := 0; backoff := 1; cycle := 0%nat; trace := [] |}.

Definition emit (e : Event) (st : State) : State :=
  {| now := now st; backoff := backoff st; cycle := cycle st; trace := trace st ++ [e] |}.

Definition advance (ms : N) (st : State) : State :=
  {| now := now st + ms; backoff := backoff st; cycle := cycle st; trace := trace st |}.

Definition set_backoff (b : N) (st : State) : State :=
  {| now := now st; backoff := b; cycle := cycle st; trace := trace st |}.

Definition next_cycle (st : State) : State :=
  {| now := now st; backoff := backoff st; cycle := S (cycle st); trace := trace st |}.

(** [resp.status_code // 100 == 2]. *)
Definition is_success (status_code : Z) : bool := (status_code / 100 =? 2)%Z.

Section Loop.

Variable cfg : Config.
Variable w : World.

(** The value of the global [_shutdown] read at time [t]. *)
Definition _shutdown (t : N) : bool :=
  match signal_at w with
  | Some ts => ts <=? t
  | None => false
  end.

(** [payload = _collect_metrics()]. *)
Definition collect (st : State) : State * Payload :=
  let k := cycle st in
  (advance (300 + sample_extra_ms w k) (emit (EvSample (now st)) st),
   _collect_metrics cfg (host_at w k)).

(** [time.sleep(backoff)] then [backoff = min(backoff * 2.0, backoff_max)]. *)
Definition back_off (st : State) : State :=
  let st1 := emit (EvBackoffSleep (now st) (backoff st)) st in
  let st2 := advance (1000 * backoff st) st1 in
  set_backoff (N.min (backoff st2 * 2) backoff_max) st2.

(** The [try] statement. *)
Definition attempt (payload : Payload) (st : State) : State :=
  let k := cycle st in
  let st1 := emit (EvPost (now st) (POST_URL cfg) (request_headers cfg) payload) st in
  let st2 := advance (post_ms w k) st1 in
  match outcome_at w k with
  | Response status_code text =>
      if is_success status_code then set_backoff 1 st2
      else
        back_off
          (emit (EvStderr (now st2)
                   (HttpError (POST_URL cfg) status_code (Py.take_str 200 text))) st2)
  | RequestException msg =>
      back_off (emit (EvStderr (now st2) (PostError msg)) st2)
  end.

(** [for _ in range(POST_INTERVAL): if _shutdown: break; time.sleep(1)],
    with [n] iterations left. *)
Fixpoint interval_sleep (n : nat) (st : State) : State :=
  match n with
  | O => st
  | S n' =>
      if _shutdown (now st) then st
      else interval_sleep n' (advance 1000 (emit (EvIntervalSleep (now st)) st))
  end.

(** The body of the [while] loop. *)
Definition loop_body (st : State) : State :=
  let '(st1, payload) := collect st in
  let st2 := attempt payload st1 in
  next_cycle (interval_sleep (Z.to_nat (POST_INTERVAL cfg)) st2).

(** [while not _shutdown: ...], for at most [fuel] iterations.  The result
    is the state reached and whether the loop has returned. *)
Fixpoint while_loop (fuel : nat) (st : State) : State * bool :=
  if _shutdown (now st) then (st, true)
  else match fuel with
       | O => (st, false)
       | S fuel' => while_loop fuel' (loop_body st)
       end.

Definition _post_loop (fuel : nat) : State * bool :=
  while_loop fuel initial_state.

End Loop.

(** ** Vocabulary of the specification *)

(** The time at which an event starts. *)
Definition ev_time (e : Event) : N :=
  match e with
  | EvSample t | EvPost t _ _ _ | EvStderr t _ | EvBackoffSleep t _ | EvIntervalSleep t => t
  end.

(** The events the specification gates on the flag: a sampling, a network
    call, a backoff sleep. *)
Definition starts_work (e : Event) : bool :=
  match e with
  | EvSample _ | EvPost _ _ _ _ | EvBackoffSleep _ _ => true
  | EvStderr _ _ | EvIntervalSleep _ => false
  end.

(** A delivery that did not get a 2xx response. *)
Definition is_failure (o : Outcome) : bool :=
  match o with
  | Response status_code _ => negb (is_success status_code)
  | RequestException _ => true
  end.

(** The number of failed deliveries in a row that end with cycle [k - 1]:
    the consecutive failures behind a loop that has completed [k] cycles. *)
Fixpoint consecutive_failures (w : World) (k : nat) : nat :=
  match k with
  | O => O
  | S j => if is_failure (outcome_at w j) then S (consecutive_failures w j) else O
  end.

(** The 2xx class as the specification writes it. *)
Definition in_2xx (status_code : Z) : Prop := (200 <= status_code <= 299)%Z.

(** The diagnostic line of a failed delivery. *)
Definition diagnostic_of (cfg : Config) (o : Outcome) : Diagnostic :=
  match o with
  | Response status_code text => HttpError (POST_URL cfg) status_code (Py.take_str 200 text)
  | RequestException msg => PostError msg
  end.

(** The state of a cycle after its sampling and its delivery attempt, when
    the interval sleep is about to start. *)
Definition after_attempt (cfg : Config) (w : World) (st : State) : State :=
  attempt cfg w (snd (collect cfg w st)) (fst (collect cfg w st)).

(** [n] one-second sleeps in a row, the first at [t]. *)
Definition interval_events (t : N) (n : nat) : list Event :=
  map (fun k => EvIntervalSleep (t + 1000 * N.of_nat k)) (seq 0 n).

(** What a mount point adds to the total: its usage, or nothing when
    [psutil.disk_usage] raises on it. *)
Definition used_or_skipped (h : Host) (m : string) : Z :=
  match disk_usage h m with
  | Some used => used
  | None => 0%Z
  end.

Definition Zsum (f : string -> Z) (l : list string) : Z :=
  fold_right (fun m acc => (f m + acc)%Z) 0%Z l.

(** The gate of the specification, read on a run: every sampling, network
    call and backoff sleep starts at a time when the flag is still unset. *)
Definition polls_before_all_work (cfg : Config) (w : World) (fuel : nat) : Prop :=
  forall e, In e (trace (fst (_post_loop cfg w fuel))) ->
            starts_work e = true -> _shutdown w (ev_time e) = false.

(** The bound of the specification on the process list. *)
Definition within_process_limit (cfg : Config) (h : Host) : Prop :=
  exists names,
    Json.loads (running_processes (_collect_metrics cfg h)) = Some names /\
    (Z.of_nat (length names) <= PROCESS_LIMIT cfg)%Z.

(** The specification's promise on the host name. *)
Definition server_name_nonempty (env : gmap string string) (nodename : option string) : Prop :=
  forall post_interval process_limit h,
    server_name (_collect_metrics (load_config env nodename post_interval process_limit) h)
      <> EmptyString.

(** ** Vocabulary of the further properties *)

(** The names of the processes that can be read, in the order in which
    [psutil.process_iter] yields them. *)
Definition listed_names (procs : list ProcEntry) : list string :=
  flat_map (fun p => match p with
                     | ProcInfo name cmdline => [proc_name name cmdline]
                     | ProcRaises => []
                     end) procs.

(** The same host with another answer of [psutil.disk_partitions]. *)
Definition with_partitions (h : Host) (ps : list Partition) : Host :=
  {| cpu_percent := cpu_percent h; mem_percent := mem_percent h; partitions := ps;
     readable := readable h; disk_usage := disk_usage h;
     bytes_recv := bytes_recv h; bytes_sent := bytes_sent h;
     uptime_raw := uptime_raw h; processes := processes h |}.

Definition is_sample (e : Event) : bool :=
  match e with EvSample _ => true | _ => false end.

Definition is_post (e : Event) : bool :=
  match e with EvPost _ _ _ _ => true | _ => false end.

(** The bodies of the POSTs of a trace, oldest first. *)
Definition posted_bodies (tr : list Event) : list Payload :=
  flat_map (fun e => match e with EvPost _ _ _ body => [body] | _ => [] end) tr.

(** The events of a trace that start at [ts] or later. *)
Definition from_time (ts : N) (tr : list Event) : list Event :=
  List.filter (fun e => (ts <=? ev_time e)%N) tr.


Definition is_backoff_sleep (e : Event) : bool :=
  match e with EvBackoffSleep _ _ => true | _ => false end.

(** The events of a cycle that started in state [st], up to the start of
    its interval sleep. *)
Definition attempt_events (cfg : Config) (w : World) (st : State) : list Event :=
  let k := cycle st in
  let t1 := (now st + (300 + sample_extra_ms w k))%N in
  let t2 := (t1 + post_ms w k)%N in
  let post := EvPost t1 (POST_URL cfg) (request_headers cfg) (_collect_metrics cfg (host_at w k)) in
  if is_failure (outcome_at w k)
  then [EvSample (now st); post; EvStderr t2 (diagnostic_of cfg (outcome_at w k));
        EvBackoffSleep t2 (backoff st)]
  else [EvSample (now st); post].

(** The string does not end with a slash. *)
Definition no_trailing_slash (s : string) : Prop :=
  forall r, s <> (r ++ "/")%string.

(** ** Scenarios *)

(** A host with nothing mounted and no process to list. *)
Definition quiet_host : Host :=
  mkHost 3%Z 41%Z [] (fun _ => true) (fun _ => Some 0%Z) 0%Z 0%Z 0%Z [].

(** One process, the way [psutil] reports an init. *)
Definition host_with_init : Host :=
  mkHost 3%Z 41%Z [] (fun _ => true) (fun _ => Some 0%Z) 0%Z 0%Z 0%Z
    [ProcInfo (Some "systemd"%string) (Some ["/sbin/init"%string])].

(** An empty environment on a host named pi5: every default applies. *)
Definition default_config : Config :=
  load_config ∅ (Some "pi5"%string) 30%Z 40%Z.

(** [PROCESS_LIMIT=0]. *)
Definition no_process_config : Config :=
  load_config {[ "PROCESS_LIMIT"%string := "0"%string ]} (Some "pi5"%string) 30%Z 0%Z.

(** [API_TOKEN=] and [POST_INTERVAL_SECONDS=1]. *)
Definition empty_token_config : Config :=
  load_config {[ "API_TOKEN"%string := EmptyString; "POST_INTERVAL_SECONDS"%string := "1"%string ]}
    (Some "pi5"%string) 1%Z 40%Z.

(** A collector that refuses every connection after 50 ms. *)
Definition collector_down (signal : option N) : World :=
  mkWorld signal (fun _ => quiet_host) (fun _ => 0%N)
    (fun _ => RequestException "connection refused") (fun _ => 50%N).

(** A collector that answers 200 to every POST after 50 ms. *)
Definition collector_up (signal : option N) : World :=
  mkWorld signal (fun _ => quiet_host) (fun _ => 0%N)
    (fun _ => Response 200%Z "ok") (fun _ => 50%N).

(** The collector of the end-to-end scenario of the specification: 200
    twice, a refused connection, then 200. *)
Definition collector_flaky (signal : option N) : World :=
  mkWorld signal (fun _ => quiet_host) (fun _ => 0%N)
    (fun k => if (k =? 2)%nat then RequestException "connection refused" else Response 200%Z "ok")
    (fun _ => 50%N).

Definition root_partition : Partition := mkPartition "/dev/sda1" "/" "ext4" "rw".
Definition data_partition : Partition := mkPartition "/dev/sdb1" "/data" "ext4" "rw".
Definition run_partition : Partition := mkPartition "tmpfs" "/run" "tmpfs" "rw".
Definition proc_partition : Partition := mkPartition "proc" "/proc" "proc" "rw".

(** Two disks: 10 bytes used on the root, 5 on every other mount point. *)
Definition two_disk_host : Host :=
  mkHost 3%Z 41%Z [root_partition; data_partition] (fun _ => true)
    (fun m => if String.eqb m "/" then Some 10%Z else Some 5%Z) 0%Z 0%Z 0%Z [].

(** Nothing but pseudo file systems in the partition list. *)
Definition pseudo_only_host : Host :=
  with_partitions two_disk_host [run_partition; proc_partition].

(** * Properties *)

(** ** The payload *)

Local Open Scope Z_scope.

(** C6: in the payload of every sampling, [cpu_usage] and [memory_usage] lie
    in 0..100, a raw percentage below 0 becoming 0 and one above 100 becoming
    100, and the four counters are not negative, a negative raw value
    becoming 0; a raw value inside its range is sent unchanged. *)
Theorem payload_fields_clamped (cfg : Config) (h : Host) :
  let p := _collect_metrics cfg h in
  let percent raw := if raw <? 0 then 0 else if 100 <? raw then 100 else raw in
  let counter raw := if raw <? 0 then 0 else raw in
  (0 <= cpu_usage p <= 100 /\ cpu_usage p = percent (cpu_percent h)) /\
  (0 <= memory_usage p <= 100 /\ memory_usage p = percent (mem_percent h)) /\
  (0 <= disk_space_used p /\ disk_space_used p = counter (_disk_used_bytes h)) /\
  (0 <= network_traffic_in p /\ network_traffic_in p = counter (bytes_recv h)) /\
  (0 <= network_traffic_out p /\ network_traffic_out p = counter (bytes_sent h)) /\
  (0 <= uptime p /\ uptime p = counter (uptime_raw h)).
Proof.
  cbn zeta. unfold _collect_metrics. cbn [cpu_usage memory_usage disk_space_used
    network_traffic_in network_traffic_out uptime].
  repeat split; try lia;
    repeat match goal with
           | |- context [?a <? ?b] => destruct (Z.ltb_spec a b)
           end; lia.
Qed.

(** The two values the specification names: 150 is sent as 100, -5 as 0. *)
Example clamp_150_and_minus_5 (cfg : Config) (h : Host) :
  cpu_percent h = 150 -> mem_percent h = -5 ->
  cpu_usage (_collect_metrics cfg h) = 100 /\ memory_usage (_collect_metrics cfg h) = 0.
Proof. intros Hc Hm. unfold _collect_metrics. cbn. rewrite Hc, Hm. split; reflexivity. Qed.

(** ** The host name *)

Lemma server_name_is_setting (cfg : Config) (h : Host) :
  server_name (_collect_metrics cfg h) = SERVER_NAME cfg.
Proof. reflexivity. Qed.

(** C8, as the specification states it, fails: with [SERVER_NAME] set to the
    empty string the payload carries an empty [server_name]. *)
Lemma server_name_empty_when_set_empty :
  ~ server_name_nonempty {[ "SERVER_NAME"%string := EmptyString ]} (Some "pi5"%string).
Proof.
  intros Hne.
  apply (Hne 30 40 quiet_host).
  reflexivity.
Qed.

(** C8, amended: [server_name] is the value of [SERVER_NAME] when that
    variable is set and the node name of the host (["unknown"] without
    [os.uname]) when it is not, so it is empty exactly when [SERVER_NAME] is
    set to the empty string, or is unset on a host with an empty node name. *)
Theorem server_name_empty_iff (env : gmap string string) (nodename : option string)
    (post_interval process_limit : Z) (h : Host) :
  let p := _collect_metrics (load_config env nodename post_interval process_limit) h in
  server_name p = Py.getenv_default env "SERVER_NAME" (default_server_name nodename) /\
  (server_name p = EmptyString <->
     env !! "SERVER_NAME"%string = Some EmptyString \/
     (env !! "SERVER_NAME"%string = None /\ nodename = Some EmptyString)).
Proof.
  cbn zeta. rewrite server_name_is_setting. cbn [load_config SERVER_NAME].
  split; [reflexivity|].
  unfold Py.getenv_default, default_server_name.
  destruct (env !! "SERVER_NAME"%string) as [v|] eqn:Hv.
  - split.
    + intros ->. now left.
    + intros [H|[H _]]; congruence.
  - destruct nodename as [n|].
    + split.
      * intros ->. right. split; reflexivity.
      * intros [H|[_ H]]; congruence.
    + split.
      * discriminate.
      * intros [H|[_ H]]; discriminate.
Qed.

(** ** The request headers *)

Lemma truthy_nonempty (s : string) : Py.truthy s = true <-> s <> EmptyString.
Proof. destruct s; cbn; split; congruence. Qed.

Lemma headers_content_type (cfg : Config) :
  request_headers cfg !! "Content-Type"%string = Some "application/json"%string.
Proof.
  unfold request_headers.
  destruct (API_TOKEN cfg) as [tok|]; [destruct (Py.truthy tok)|]; reflexivity.
Qed.

Lemma headers_authorization (cfg : Config) (v : string) :
  request_headers cfg !! "Authorization"%string = Some v <->
  exists tok, API_TOKEN cfg = Some tok /\ tok <> EmptyString /\ v = ("Bearer " ++ tok)%string.
Proof.
  unfold request_headers.
  destruct (API_TOKEN cfg) as [tok|].
  - destruct (Py.truthy tok) eqn:Ht.
    + rewrite lookup_insert_eq. split.
      * intros [= <-]. exists tok. rewrite <- truthy_nonempty. auto.
      * intros (tok' & [= <-] & _ & ->). reflexivity.
    + split.
      * intros H. rewrite lookup_singleton_ne in H by discriminate. discriminate.
      * intros (tok' & [= <-] & Hne & _). apply truthy_nonempty in Hne. congruence.
  - split.
    + intros H. rewrite lookup_singleton_ne in H by discriminate. discriminate.
    + intros (tok' & Hs & _). discriminate.
Qed.

Lemma headers_no_authorization (cfg : Config) :
  request_headers cfg !! "Authorization"%string = None <->
  API_TOKEN cfg = None \/ API_TOKEN cfg = Some EmptyString.
Proof.
  destruct (request_headers cfg !! "Authorization"%string) as [v|] eqn:Hv.
  - apply headers_authorization in Hv as (tok & Ht & Hne & _).
    split; [discriminate|]. intros [H|H]; congruence.
  - split; [|reflexivity]. intros _.
    destruct (API_TOKEN cfg) as [[|c tok]|] eqn:Ht; auto.
    assert (Hs : request_headers cfg !! "Authorization"%string
                 = Some ("Bearer " ++ String c tok)%string).
    { apply headers_authorization. exists (String c tok). repeat split; congruence. }
    congruence.
Qed.

(** ** The process list *)

Lemma append_assoc (a b c : string) : ((a ++ b) ++ c = a ++ (b ++ c))%string.
Proof.
  induction a as [|x a IH]; [reflexivity|].
  change (String x ((a ++ b) ++ c) = String x (a ++ (b ++ c)))%string.
  now rewrite IH.
Qed.

Module JsonFacts.
Import Json.

(** Reading back an escaped character yields the character. *)
Lemma prun_escape_char (c : ascii) (rest : string) (acc : list ascii) (items : list string) :
  prun (escape_char c ++ rest) (InStr acc) items = prun rest (InStr (c :: acc)) items.
Proof. destruct c as [[] [] [] [] [] [] [] []]; reflexivity. Qed.

Lemma prun_escape (s rest : string) (acc : list ascii) (items : list string) :
  prun (escape s ++ rest) (InStr acc) items
  = prun rest (InStr (rev (list_ascii_of_string s) ++ acc)) items.
Proof.
  revert acc. induction s as [|c s IH]; intros acc; [reflexivity|].
  cbn [escape list_ascii_of_string rev].
  rewrite append_assoc, prun_escape_char, IH, <- app_assoc. reflexivity.
Qed.

Lemma string_of_rev_rev (s : string) :
  string_of_rev (rev (list_ascii_of_string s) ++ []) = s.
Proof.
  unfold string_of_rev.
  rewrite app_nil_r, rev_involutive. apply string_of_list_ascii_of_string.
Qed.

(** A string item is read back whole, at the start of the array or after
    a comma. *)
Lemma prun_dumps_string (s rest : string) (st : PState) (items : list string) :
  st = Opened \/ st = AfterComma ->
  prun (dumps_string s ++ rest) st items = prun rest AfterItem (items ++ [s]).
Proof.
  intros Hst. unfold dumps_string.
  assert (Hq : prun (String dquote (escape s ++ String dquote EmptyString) ++ rest) st items
               = prun ((escape s ++ String dquote EmptyString) ++ rest) (InStr []) items).
  { destruct Hst as [-> | ->]; reflexivity. }
  rewrite Hq, append_assoc, prun_escape.
  change (prun (String dquote EmptyString ++ rest) (InStr (rev (list_ascii_of_string s) ++ [])) items)
    with (prun rest AfterItem (items ++ [string_of_rev (rev (list_ascii_of_string s) ++ [])])).
  now rewrite string_of_rev_rev.
Qed.

Lemma prun_dumps_items (s : string) (l : list string) (st : PState) (items : list string) :
  st = Opened \/ st = AfterComma ->
  prun (dumps_items (s :: l) ++ "]") st items = Some (items ++ s :: l).
Proof.
  revert s st items. induction l as [|s' l IH]; intros s st items Hst.
  - cbn [dumps_items]. rewrite (prun_dumps_string _ _ _ _ Hst). reflexivity.
  - change (dumps_items (s :: s' :: l))
      with (dumps_string s ++ ", " ++ dumps_items (s' :: l))%string.
    rewrite append_assoc, (prun_dumps_string _ _ _ _ Hst).
    rewrite append_assoc.
    change (prun ((", " ++ dumps_items (s' :: l) ++ "]")%string) AfterItem (items ++ [s]))
      with (prun (dumps_items (s' :: l) ++ "]")%string AfterComma (items ++ [s])).
    rewrite IH by auto. now rewrite <- app_assoc.
Qed.

(** Decoding what [dumps] wrote gives the list back. *)
Lemma loads_dumps (l : list string) : loads (dumps l) = Some l.
Proof.
  unfold loads, dumps. destruct l as [|s l]; [reflexivity|].
  change (prun ("[" ++ dumps_items (s :: l) ++ "]")%string Start [])
    with (prun (dumps_items (s :: l) ++ "]")%string Opened []).
  now rewrite prun_dumps_items by auto.
Qed.

End JsonFacts.

Lemma names_loop_length (limit : Z) (procs : list ProcEntry) (names : list string) :
  1 <= limit -> Z.of_nat (length names) < limit ->
  Z.of_nat (length (names_loop limit procs names)) <= limit.
Proof.
  intros Hl. revert names. induction procs as [|[name cmdline|] rest IH]; intros names Hn.
  - cbn. lia.
  - cbn [names_loop].
    destruct (Z.geb_spec (Z.of_nat (length (names ++ [proc_name name cmdline]))) limit) as [Hge|Hlt].
    + rewrite length_app in *. cbn [length] in *. lia.
    + apply IH. exact Hlt.
  - cbn [names_loop]. apply IH. exact Hn.
Qed.

(** With a limit of at least one the list is cut at the limit. *)
Lemma running_process_names_bounded (limit : Z) (procs : list ProcEntry) :
  1 <= limit -> Z.of_nat (length (_running_process_names limit procs)) <= limit.
Proof. intros Hl. apply names_loop_length; [exact Hl | cbn; lia]. Qed.

Lemma within_limit_when_positive (cfg : Config) (h : Host) :
  1 <= PROCESS_LIMIT cfg -> within_process_limit cfg h.
Proof.
  intros Hl. exists (_running_process_names (PROCESS_LIMIT cfg) (processes h)). split.
  - apply JsonFacts.loads_dumps.
  - now apply running_process_names_bounded.
Qed.

(** C7: with [PROCESS_LIMIT=0] and one process running, the field decodes to
    a list of one name, one more than the limit: the length is compared with
    the limit only after a name has been appended. *)
Theorem process_limit_zero_exceeded :
  PROCESS_LIMIT no_process_config = 0 /\
  _running_process_names 0 (processes host_with_init) = ["systemd"%string] /\
  Json.loads (running_processes (_collect_metrics no_process_config host_with_init))
  = Some ["systemd"%string] /\
  ~ within_process_limit no_process_config host_with_init.
Proof.
  assert (Hrun : Json.loads (running_processes (_collect_metrics no_process_config host_with_init))
                 = Some ["systemd"%string]) by reflexivity.
  repeat split; try reflexivity.
  intros (names & Hdec & Hlen).
  assert (Hnames : names = ["systemd"%string]) by congruence.
  subst names. cbn in Hlen. lia.
Qed.

(** ** Disk usage *)

Lemma mounts_loop_spec (h : Host) (ps : list Partition) (mounts : gset string) (m : string) :
  m ∈ mounts_loop h ps mounts <->
  m ∈ mounts \/
  exists p, In p ps /\ is_pseudo p = false /\ readable h (mountpoint p) = true /\ mountpoint p = m.
Proof.
  revert mounts. induction ps as [|p rest IH]; intros mounts; cbn [mounts_loop].
  - split; [auto | intros [H | (p & [] & _)]; exact H].
  - destruct (is_pseudo p) eqn:Hp; [|destruct (readable h (mountpoint p)) eqn:Hr; cbn [negb]];
      rewrite IH; split.
    + intros [H | (q & Hq & Hrest)]; [left; exact H | right; exists q; cbn; auto].
    + intros [H | (q & [-> | Hq] & Hq1 & Hrest)];
        [left; exact H | congruence | right; exists q; auto].
    + intros [H | (q & Hq & Hrest)].
      * apply elem_of_union in H as [H | H]; [|left; exact H].
        apply elem_of_singleton in H. right. exists p. cbn. auto.
      * right. exists q. cbn. auto.
    + intros [H | (q & [-> | Hq] & Hq1 & Hq2 & Hq3)].
      * left. apply elem_of_union. right. exact H.
      * left. apply elem_of_union. left. apply elem_of_singleton. symmetry. exact Hq3.
      * right. exists q. auto.
    + intros [H | (q & Hq & Hrest)]; [left; exact H | right; exists q; cbn; auto].
    + intros [H | (q & [-> | Hq] & Hq1 & Hq2 & Hq3)];
        [left; exact H | congruence | right; exists q; auto].
Qed.

Lemma Zsum_perm (f : string -> Z) (l l' : list string) :
  l ≡ₚ l' -> Zsum f l = Zsum f l'.
Proof.
  induction 1 as [|x l l' _ IH|x y l|l l' l'' _ IH1 _ IH2]; cbn; try lia.
  unfold Zsum in *. lia.
Qed.

(** The loop adds up the usage of the mount points it is given, each once:
    with distinct mount points the [seen] set never holds the next one. *)
Lemma disk_loop_total (h : Host) (l : list string) (total : Z) (seen : gset string) :
  NoDup l -> (forall m, m ∈ l -> m ∉ seen) ->
  fst (fold_left (disk_step h) l (total, seen)) = total + Zsum (used_or_skipped h) l.
Proof.
  revert total seen. induction l as [|m l IH]; intros total seen Hnd Hfresh.
  - cbn. lia.
  - apply NoDup_cons in Hnd as [Hm Hnd].
    cbn [fold_left Zsum fold_right]. unfold disk_step at 2.
    destruct (decide (m ∈ seen)) as [Hin | _].
    { exfalso. apply (Hfresh m); [left | exact Hin]. }
    unfold used_or_skipped at 1.
    destruct (disk_usage h m) as [used|].
    + rewrite IH; [unfold Zsum; lia | exact Hnd |].
      intros m' Hm' Hin. apply elem_of_union in Hin as [Hin | Hin].
      * apply elem_of_singleton in Hin. subst m'. contradiction.
      * apply (Hfresh m'); [right; exact Hm' | exact Hin].
    + rewrite IH; [unfold Zsum; lia | exact Hnd |].
      intros m' Hm'. apply Hfresh. right. exact Hm'.
Qed.

Lemma disk_used_is_sum (h : Host) :
  _disk_used_bytes h = Zsum (used_or_skipped h) (elements (_unique_mountpoints h)).
Proof.
  unfold _disk_used_bytes. rewrite disk_loop_total.
  - lia.
  - apply NoDup_elements.
  - intros m _. apply not_elem_of_empty.
Qed.

Lemma not_root_in_rest (X : gset string) : "/"%string ∉ X ∖ {[ "/"%string ]}.
Proof. rewrite elem_of_difference, elem_of_singleton. intros [_ Hne]. now apply Hne. Qed.

(** C10: whatever the partitions are, the set of mount points that
    [_disk_used_bytes] goes through holds ["/"], next to the mount points of
    the partitions that pass the two filters; and the total is what the root
    adds, taken once, plus what the other mount points of the set add, where
    a mount point on which [psutil.disk_usage] raises adds nothing. *)
Theorem root_always_counted_once (h : Host) :
  ("/"%string ∈ _unique_mountpoints h) /\
  (forall m, m ∈ _unique_mountpoints h <->
     m = "/"%string \/
     exists p, In p (partitions h) /\ is_pseudo p = false /\
               readable h (mountpoint p) = true /\ mountpoint p = m) /\
  ("/"%string ∉ elements (_unique_mountpoints h ∖ {[ "/"%string ]})) /\
  _disk_used_bytes h
  = (used_or_skipped h "/"
     + Zsum (used_or_skipped h) (elements (_unique_mountpoints h ∖ {[ "/"%string ]})))%Z /\
  (forall used, disk_usage h "/" = Some used ->
     _disk_used_bytes h
     = (used + Zsum (used_or_skipped h) (elements (_unique_mountpoints h ∖ {[ "/"%string ]})))%Z).
Proof.
  assert (Hroot : "/"%string ∈ _unique_mountpoints h).
  { unfold _unique_mountpoints. apply elem_of_union. left. now apply elem_of_singleton. }
  assert (Htotal : _disk_used_bytes h
                   = (used_or_skipped h "/"
                      + Zsum (used_or_skipped h)
                          (elements (_unique_mountpoints h ∖ {[ "/"%string ]})))%Z).
  { rewrite disk_used_is_sum.
    assert (Hperm : elements (_unique_mountpoints h)
                    ≡ₚ "/"%string :: elements (_unique_mountpoints h ∖ {[ "/"%string ]})).
    { rewrite <- elements_union_singleton by apply not_root_in_rest.
      apply elements_proper. intros m.
      rewrite elem_of_union, elem_of_difference, !elem_of_singleton.
      destruct (decide (m = "/"%string)) as [-> | Hne]; tauto. }
    rewrite (Zsum_perm _ _ _ Hperm). reflexivity. }
  split; [exact Hroot|]. split; [|split; [|split]].
  - intros m. unfold _unique_mountpoints. rewrite elem_of_union, elem_of_singleton.
    rewrite mounts_loop_spec. split.
    + intros [H | [H | H]]; [left; exact H | | right; exact H].
      exfalso. revert H. apply not_elem_of_empty.
    + intros [H | H]; [left; exact H | right; right; exact H].
  - rewrite elem_of_elements. apply not_root_in_rest.
  - exact Htotal.
  - intros used Hused. rewrite Htotal. unfold used_or_skipped at 1. now rewrite Hused.
Qed.

(** A root on a pseudo file system, listed twice, is still counted once. *)
Example root_on_tmpfs_counted_once :
  _disk_used_bytes
    (mkHost 0 0
       [mkPartition "none" "/" "tmpfs" "rw"; mkPartition "none" "/" "TMPFS" "rw";
        mkPartition "/dev/sda1" "/data" "ext4" "rw"]%string
       (fun _ => true)
       (fun m => if String.eqb m "/" then Some 10 else Some 5)
       0 0 0 [])
  = 15.
Proof. vm_compute. reflexivity. Qed.

(** ** The delivery loop: one iteration *)

Local Open Scope N_scope.

Lemma is_success_2xx (status_code : Z) : is_success status_code = true <-> in_2xx status_code.
Proof.
  unfold is_success, in_2xx. rewrite Z.eqb_eq. split; intros H.
  - pose proof (Z.div_mod status_code 100 ltac:(lia)) as Hdm.
    pose proof (Z.mod_pos_bound status_code 100 ltac:(lia)) as Hb. lia.
  - symmetry. apply (Z.div_unique_pos status_code 100 2 (status_code - 200)); lia.
Qed.

Lemma is_failure_not_2xx (o : Outcome) :
  is_failure o = true <-> ~ exists status_code text, o = Response status_code text /\ in_2xx status_code.
Proof.
  destruct o as [code text | msg]; cbn [is_failure].
  - rewrite Bool.negb_true_iff, <- Bool.not_true_iff_false, is_success_2xx. split.
    + intros Hn (code' & text' & [= <- <-] & H2). contradiction.
    + intros Hn H2. apply Hn. eauto.
  - split; [|reflexivity]. intros _ (code & text & Heq & _). discriminate.
Qed.

Lemma back_off_spec (st : State) :
  back_off st =
  {| now := now st + 1000 * backoff st;
     backoff := N.min (backoff st * 2) backoff_max;
     cycle := cycle st;
     trace := trace st ++ [EvBackoffSleep (now st) (backoff st)] |}.
Proof. reflexivity. Qed.

Lemma interval_events_S (t : N) (n : nat) :
  interval_events t (S n) = EvIntervalSleep t :: interval_events (t + 1000) n.
Proof.
  unfold interval_events. cbn [seq map].
  rewrite <- seq_shift, map_map. f_equal.
  - f_equal. lia.
  - apply map_ext. intros k. f_equal. lia.
Qed.

Lemma in_interval_events (t : N) (n : nat) (e : Event) :
  In e (interval_events t n) <->
  exists j, (j < n)%nat /\ e = EvIntervalSleep (t + 1000 * N.of_nat j).
Proof.
  unfold interval_events. rewrite in_map_iff. split.
  - intros (j & <- & Hj). apply in_seq in Hj. exists j. split; [lia | reflexivity].
  - intros (j & Hj & ->). exists j. split; [reflexivity | apply in_seq; lia].
Qed.

(** The interval sleep makes some number [k] of one-second steps, at most
    the number asked for: the flag was unset when each of them started, and
    it stops short only on a set flag. *)
Lemma interval_sleep_spec (w : World) (n : nat) (st : State) :
  exists k : nat,
    (k <= n)%nat /\
    interval_sleep w n st =
      {| now := now st + 1000 * N.of_nat k; backoff := backoff st; cycle := cycle st;
         trace := trace st ++ interval_events (now st) k |} /\
    (forall j, (j < k)%nat -> _shutdown w (now st + 1000 * N.of_nat j) = false) /\
    (k = n \/ _shutdown w (now st + 1000 * N.of_nat k) = true).
Proof.
  revert st. induction n as [|n IH]; intros st.
  - exists O. repeat split; [lia | | lia | now left].
    destruct st as [t b c tr]. cbn. f_equal; [lia | now rewrite app_nil_r].
  - cbn [interval_sleep]. destruct (_shutdown w (now st)) eqn:Hflag.
    + exists O. repeat split; [lia | | lia |].
      * destruct st as [t b c tr]. cbn. f_equal; [lia | now rewrite app_nil_r].
      * right. cbn [N.of_nat]. now rewrite N.mul_0_r, N.add_0_r.
    + destruct (IH (advance 1000 (emit (EvIntervalSleep (now st)) st)))
        as (k & Hk & Heq & Hbefore & Hstop).
      cbn [advance emit now backoff cycle trace] in Heq, Hbefore, Hstop.
      exists (S k). split; [lia|]. split; [|split].
      * rewrite Heq, interval_events_S, <- app_assoc. cbn [app]. f_equal. lia.
      * intros [|j] Hj.
        -- cbn [N.of_nat]. now rewrite N.mul_0_r, N.add_0_r.
        -- replace (now st + 1000 * N.of_nat (S j)) with (now st + 1000 + 1000 * N.of_nat j) by lia.
           apply Hbefore. lia.
      * destruct Hstop as [-> | Hstop]; [now left | right].
        replace (now st + 1000 * N.of_nat (S k)) with (now st + 1000 + 1000 * N.of_nat k) by lia.
        exact Hstop.
Qed.

Lemma loop_body_unfold (cfg : Config) (w : World) (st : State) :
  loop_body cfg w st
  = next_cycle (interval_sleep w (Z.to_nat (POST_INTERVAL cfg)) (after_attempt cfg w st)).
Proof. reflexivity. Qed.

(** A cycle up to the start of its interval sleep: the sampling and the
    POST, and after a failure the diagnostic line and the backoff sleep. *)
Lemma after_attempt_spec (cfg : Config) (w : World) (st : State) :
  let k := cycle st in
  let t1 := now st + (300 + sample_extra_ms w k) in
  let t2 := t1 + post_ms w k in
  let o := outcome_at w k in
  let post := EvPost t1 (POST_URL cfg) (request_headers cfg) (_collect_metrics cfg (host_at w k)) in
  after_attempt cfg w st =
    if is_failure o
    then {| now := t2 + 1000 * backoff st;
            backoff := N.min (backoff st * 2) backoff_max;
            cycle := k;
            trace := trace st ++ [EvSample (now st); post; EvStderr t2 (diagnostic_of cfg o);
                                  EvBackoffSleep t2 (backoff st)] |}
    else {| now := t2; backoff := 1; cycle := k;
            trace := trace st ++ [EvSample (now st); post] |}.
Proof.
  cbn zeta. unfold after_attempt, attempt, collect. cbn [fst snd advance emit now cycle backoff trace].
  destruct (outcome_at w (cycle st)) as [code text | msg]; cbn [is_failure diagnostic_of].
  - destruct (is_success code); cbn [negb].
    + unfold set_backoff. cbn. now rewrite <- app_assoc.
    + rewrite back_off_spec. cbn. now rewrite <- !app_assoc.
  - rewrite back_off_spec. cbn. now rewrite <- !app_assoc.
Qed.

(** C2: a delivery attempt resets the backoff to 1 exactly when it gets a
    response whose status is in 200..299, whatever the backoff was, and at
    once: nothing but the POST happens in between.  On every other status
    and on every transport failure the backoff is not reset: it becomes
    twice its value, capped at 60, which is never 1. *)
Theorem backoff_reset_iff_2xx (cfg : Config) (w : World) (payload : Payload) (st : State) :
  let st' := attempt cfg w payload st in
  let o := outcome_at w (cycle st) in
  (forall status_code text, o = Response status_code text -> in_2xx status_code ->
     backoff st' = 1 /\
     now st' = now st + post_ms w (cycle st) /\
     trace st' = trace st ++ [EvPost (now st) (POST_URL cfg) (request_headers cfg) payload]) /\
  (forall status_code text, o = Response status_code text -> ~ in_2xx status_code ->
     backoff st' = N.min (backoff st * 2) 60 /\ backoff st' <> 1) /\
  (forall msg, o = RequestException msg ->
     backoff st' = N.min (backoff st * 2) 60 /\ backoff st' <> 1) /\
  (backoff st' = 1 <-> exists status_code text, o = Response status_code text /\ in_2xx status_code).
Proof.
  cbn zeta. unfold attempt.
  destruct (outcome_at w (cycle st)) as [code text | msg].
  - destruct (is_success code) eqn:Hs.
    + apply is_success_2xx in Hs. split; [|split; [|split]].
      * intros code' text' _ _. cbn. auto.
      * intros code' text' [= <- <-] Hn. contradiction.
      * discriminate.
      * split; [|reflexivity]. intros _. exists code, text. auto.
    + assert (Hn : ~ in_2xx code).
      { rewrite <- is_success_2xx. congruence. }
      rewrite back_off_spec. cbn [backoff now trace emit advance]. unfold backoff_max.
      split; [|split; [|split]].
      * intros code' text' [= <- <-] H2. contradiction.
      * intros code' text' _ _. lia.
      * discriminate.
      * split; [lia|]. intros (code' & text' & [= <- <-] & H2). contradiction.
  - rewrite back_off_spec. cbn [backoff now trace emit advance]. unfold backoff_max.
    split; [|split; [|split]].
    + discriminate.
    + discriminate.
    + intros msg' _. lia.
    + split; [lia|]. intros (code' & text' & Heq & _). discriminate.
Qed.

(** C3: in a cycle whose delivery fails, on a status outside 2xx or on a
    transport error, the loop sleeps the current backoff and after it makes
    the one-second steps of the interval sleep; when the next cycle starts,
    that is when the flag is still unset at the end of the cycle, the steps
    made are all [POST_INTERVAL] of them, so the cycle has waited the backoff
    plus the whole interval. *)
Theorem failed_attempt_sleeps_backoff_then_interval (cfg : Config) (w : World) (st : State) :
  is_failure (outcome_at w (cycle st)) = true ->
  let k := cycle st in
  let t_post := now st + (300 + sample_extra_ms w k) in
  let t_back := t_post + post_ms w k in
  let t_interval := t_back + 1000 * backoff st in
  exists steps : nat,
    trace (loop_body cfg w st) =
      trace st
      ++ [EvSample (now st);
          EvPost t_post (POST_URL cfg) (request_headers cfg) (_collect_metrics cfg (host_at w k));
          EvStderr t_back (diagnostic_of cfg (outcome_at w k));
          EvBackoffSleep t_back (backoff st)]
      ++ interval_events t_interval steps /\
    now (loop_body cfg w st) = t_interval + 1000 * N.of_nat steps /\
    (_shutdown w (now (loop_body cfg w st)) = false ->
       steps = Z.to_nat (POST_INTERVAL cfg) /\
       now (loop_body cfg w st)
       = t_back + 1000 * backoff st + 1000 * Z.to_N (POST_INTERVAL cfg)).
Proof.
  intros Hfail. cbn zeta. rewrite loop_body_unfold.
  pose proof (after_attempt_spec cfg w st) as Ha. cbn zeta in Ha. rewrite Hfail in Ha.
  destruct (interval_sleep_spec w (Z.to_nat (POST_INTERVAL cfg)) (after_attempt cfg w st))
    as (steps & _ & Heq & _ & Hstop).
  rewrite Heq. rewrite Ha. cbn [next_cycle now trace backoff cycle].
  exists steps. split; [now rewrite <- app_assoc|]. split; [reflexivity|].
  intros Hflag. rewrite Ha in Hstop. cbn [now] in Hstop.
  destruct Hstop as [-> | Hstop]; [|congruence].
  split; [reflexivity|]. rewrite Z_nat_N. lia.
Qed.

(** ** The delivery loop: runs *)

Lemma while_loop_invariant (cfg : Config) (w : World) (P : State -> Prop) :
  (forall st, P st -> _shutdown w (now st) = false -> P (loop_body cfg w st)) ->
  forall fuel st, P st -> P (fst (while_loop cfg w fuel st)).
Proof.
  intros Hstep. induction fuel as [|fuel IH]; intros st HP; cbn [while_loop];
    destruct (_shutdown w (now st)) eqn:Hflag; cbn [fst]; auto.
Qed.

(** A run that has not returned has found the flag unset at its last test. *)
Lemma while_loop_running (cfg : Config) (w : World) (fuel : nat) (st : State) :
  snd (while_loop cfg w fuel st) = false ->
  _shutdown w (now (fst (while_loop cfg w fuel st))) = false.
Proof.
  revert st. induction fuel as [|fuel IH]; intros st; cbn [while_loop];
    destruct (_shutdown w (now st)) eqn:Hflag; cbn [fst snd]; auto; discriminate.
Qed.

Lemma loop_body_backoff (cfg : Config) (w : World) (st : State) :
  backoff (loop_body cfg w st)
  = if is_failure (outcome_at w (cycle st)) then N.min (backoff st * 2) backoff_max else 1.
Proof.
  rewrite loop_body_unfold.
  destruct (interval_sleep_spec w (Z.to_nat (POST_INTERVAL cfg)) (after_attempt cfg w st))
    as (steps & _ & Heq & _).
  rewrite Heq. cbn [next_cycle backoff].
  pose proof (after_attempt_spec cfg w st) as Ha. cbn zeta in Ha. rewrite Ha.
  now destruct (is_failure (outcome_at w (cycle st))).
Qed.

Lemma loop_body_cycle (cfg : Config) (w : World) (st : State) :
  cycle (loop_body cfg w st) = S (cycle st).
Proof.
  rewrite loop_body_unfold.
  destruct (interval_sleep_spec w (Z.to_nat (POST_INTERVAL cfg)) (after_attempt cfg w st))
    as (steps & _ & Heq & _).
  rewrite Heq. cbn [next_cycle cycle].
  pose proof (after_attempt_spec cfg w st) as Ha. cbn zeta in Ha. rewrite Ha.
  now destruct (is_failure (outcome_at w (cycle st))).
Qed.

Lemma doubling_capped (n : nat) :
  N.min (N.min (2 ^ N.of_nat n) 60 * 2) backoff_max = N.min (2 ^ N.of_nat (S n)) 60.
Proof.
  unfold backoff_max. rewrite Nat2N.inj_succ, N.pow_succ_r'. lia.
Qed.

(** C1: the backoff starts at 1 and, wherever a run stands, after [n] failed
    deliveries in a row it is [min (2 ^ n) 60]: 1, 2, 4, 8, 16, 32, and 60
    from the sixth failure on. *)
Theorem backoff_doubles_capped (cfg : Config) (w : World) (fuel : nat) :
  backoff initial_state = 1 /\
  let st := fst (_post_loop cfg w fuel) in
  backoff st = N.min (2 ^ N.of_nat (consecutive_failures w (cycle st))) 60.
Proof.
  split; [reflexivity|]. cbn zeta. unfold _post_loop.
  apply (while_loop_invariant cfg w
           (fun st => backoff st = N.min (2 ^ N.of_nat (consecutive_failures w (cycle st))) 60)).
  - intros st Hinv _.
    rewrite loop_body_backoff, loop_body_cycle. cbn [consecutive_failures].
    destruct (is_failure (outcome_at w (cycle st))).
    + rewrite Hinv. apply doubling_capped.
    + reflexivity.
  - reflexivity.
Qed.

Lemma shutdown_monotone (w : World) (t t' : N) :
  _shutdown w t = true -> t <= t' -> _shutdown w t' = true.
Proof.
  unfold _shutdown. destruct (signal_at w) as [ts|]; [|discriminate].
  rewrite !N.leb_le. lia.
Qed.

(** The events one iteration adds to the trace. *)
Lemma in_loop_body_trace (cfg : Config) (w : World) (st : State) (e : Event) :
  In e (trace (loop_body cfg w st)) ->
  In e (trace st) \/
  e = EvSample (now st) \/
  (exists t body, e = EvPost t (POST_URL cfg) (request_headers cfg) body) \/
  (exists t d, e = EvStderr t d) \/
  (exists t secs, e = EvBackoffSleep t secs) \/
  (exists t, e = EvIntervalSleep t /\ _shutdown w t = false /\
             (t + 1000 = now (loop_body cfg w st) \/ _shutdown w (t + 1000) = false)).
Proof.
  rewrite loop_body_unfold.
  destruct (interval_sleep_spec w (Z.to_nat (POST_INTERVAL cfg)) (after_attempt cfg w st))
    as (steps & _ & Heq & Hbefore & _).
  rewrite Heq. cbn [next_cycle trace now]. rewrite in_app_iff, in_interval_events.
  intros [Hin | (j & Hj & ->)].
  - pose proof (after_attempt_spec cfg w st) as Ha. cbn zeta in Ha. rewrite Ha in Hin.
    destruct (is_failure (outcome_at w (cycle st))); cbn [trace] in Hin;
      apply in_app_iff in Hin as [Hin | Hin]; auto; cbn [In] in Hin;
      repeat destruct Hin as [<- | Hin]; eauto 8; contradiction.
  - do 5 right. eexists. split; [reflexivity|]. split; [apply Hbefore; exact Hj|].
    destruct (Nat.eq_dec (S j) steps) as [<- | Hne].
    + left. lia.
    + right.
      replace (now (after_attempt cfg w st) + 1000 * N.of_nat j + 1000)
        with (now (after_attempt cfg w st) + 1000 * N.of_nat (S j)) by lia.
      apply Hbefore. lia.
Qed.


(** Once the flag is set at the top of the loop, the loop returns on the
    spot: no event is added. *)
Lemma while_loop_flag_set (cfg : Config) (w : World) (fuel : nat) (st : State) :
  _shutdown w (now st) = true -> while_loop cfg w fuel st = (st, true).
Proof. intros Hflag. destruct fuel; cbn [while_loop]; now rewrite Hflag. Qed.



(** C4, as the specification states it, fails: a signal that arrives while
    the first sampling is under way stops neither the POST of that cycle nor,
    when the POST fails, its backoff sleep. *)
Lemma backoff_sleep_starts_after_flag_set :
  ~ polls_before_all_work default_config (collector_down (Some 100)) 1.
Proof.
  intros Hgate.
  specialize (Hgate (EvBackoffSleep 350 1)).
  assert (Hflag : true = false); [|discriminate].
  apply Hgate; [|reflexivity].
  cbn. right. right. right. left. reflexivity.
Qed.

(** C4, amended: the flag is polled before every new cycle and before every
    one-second step of the interval sleep, so every sampling and every such
    step starts with the flag unset; the flag stays set once it is; and a
    loop that finds it set before a cycle returns without another event. *)
Theorem polls_before_cycle_and_interval_step (cfg : Config) (w : World) (fuel : nat) :
  (forall t, In (EvSample t) (trace (fst (_post_loop cfg w fuel))) -> _shutdown w t = false) /\
  (forall t, In (EvIntervalSleep t) (trace (fst (_post_loop cfg w fuel))) -> _shutdown w t = false) /\
  (forall t t', _shutdown w t = true -> t <= t' -> _shutdown w t' = true) /\
  (forall st, _shutdown w (now st) = true -> while_loop cfg w fuel st = (st, true)).
Proof.
  split; [|split; [|split]].
  - unfold _post_loop.
    apply (while_loop_invariant cfg w
             (fun st => forall t, In (EvSample t) (trace st) -> _shutdown w t = false)).
    + intros st Hinv Hflag t Hin.
      apply in_loop_body_trace in Hin
        as [Hin | [Heq | [(t' & b & Heq) | [(t' & d & Heq) | [(t' & s & Heq) | (t' & Heq & _)]]]]];
        try discriminate.
      * now apply Hinv.
      * now injection Heq as ->.
    + intros t [].
  - unfold _post_loop.
    apply (while_loop_invariant cfg w
             (fun st => forall t, In (EvIntervalSleep t) (trace st) -> _shutdown w t = false)).
    + intros st Hinv Hflag t Hin.
      apply in_loop_body_trace in Hin
        as [Hin | [Heq | [(t' & b & Heq) | [(t' & d & Heq) | [(t' & s & Heq) | (t' & Heq & Hf & _)]]]]];
        try discriminate.
      * now apply Hinv.
      * now injection Heq as ->.
    + intros t [].
  - apply shutdown_monotone.
  - intros st. apply while_loop_flag_set.
Qed.

(** Every one-second step in the trace of a run started with the flag unset,
    and either it is the last thing the run has done or the flag was still
    unset when it ended. *)
Lemma interval_steps_in_run (cfg : Config) (w : World) (fuel : nat) (t : N) :
  In (EvIntervalSleep t) (trace (fst (_post_loop cfg w fuel))) ->
  _shutdown w t = false /\
  (t + 1000 = now (fst (_post_loop cfg w fuel)) \/ _shutdown w (t + 1000) = false).
Proof.
  unfold _post_loop. revert t.
  apply (while_loop_invariant cfg w
           (fun st => forall t, In (EvIntervalSleep t) (trace st) ->
                                _shutdown w t = false /\
                                (t + 1000 = now st \/ _shutdown w (t + 1000) = false))).
  - intros st Hinv Hflag t Hin.
    apply in_loop_body_trace in Hin
      as [Hin | [Heq | [(t' & b & Heq) | [(t' & d & Heq) | [(t' & s & Heq) | (t' & Heq & Hf & Hend)]]]]];
      try discriminate.
    + destruct (Hinv t Hin) as [Hf [Hend | Hend]]; split; auto.
      right. now rewrite Hend.
    + injection Heq as ->. auto.
  - intros t [].
Qed.

(** C5: the interval sleep goes by steps of one second and polls the flag
    before each of them.  When the signal arrives during such a step, that
    is once the step started at [t] is under way and by the time it ends,
    that step is the last: the loop has returned, at time [t + 1000], less
    than one second after the signal. *)
Theorem interval_sleep_stops_within_a_second
    (cfg : Config) (w : World) (fuel : nat) (ts t : N) :
  signal_at w = Some ts ->
  In (EvIntervalSleep t) (trace (fst (_post_loop cfg w fuel))) ->
  ts <= t + 1000 ->
  t < ts /\
  snd (_post_loop cfg w fuel) = true /\
  now (fst (_post_loop cfg w fuel)) = t + 1000 /\
  now (fst (_post_loop cfg w fuel)) - ts < 1000 /\
  (forall t', In (EvIntervalSleep t') (trace (fst (_post_loop cfg w fuel))) -> t' <= t).
Proof.
  intros Hsig Hin Hduring.
  assert (Hset : _shutdown w (t + 1000) = true).
  { unfold _shutdown. rewrite Hsig. now apply N.leb_le. }
  destruct (interval_steps_in_run cfg w fuel t Hin) as [Hunset [Hend | Hend]]; [|congruence].
  assert (Hlt : t < ts).
  { unfold _shutdown in Hunset. rewrite Hsig in Hunset. now apply N.leb_gt in Hunset. }
  split; [exact Hlt|]. split; [|split; [|split]].
  - destruct (snd (_post_loop cfg w fuel)) eqn:Hrun; [reflexivity|].
    apply while_loop_running in Hrun. unfold _post_loop in Hend.
    rewrite <- Hend in Hrun. congruence.
  - now rewrite Hend.
  - rewrite <- Hend. lia.
  - intros t' Hin'.
    destruct (interval_steps_in_run cfg w fuel t' Hin') as [_ [Hend' | Hend']]; [lia|].
    unfold _shutdown in Hend'. rewrite Hsig in Hend'. apply N.leb_gt in Hend'. lia.
Qed.

(** Every POST of a run goes to [POST_URL] with the headers built before
    the loop. *)
Lemma posts_in_run (cfg : Config) (w : World) (fuel : nat)
    (t : N) (url : string) (hdrs : gmap string string) (body : Payload) :
  In (EvPost t url hdrs body) (trace (fst (_post_loop cfg w fuel))) ->
  url = POST_URL cfg /\ hdrs = request_headers cfg.
Proof.
  unfold _post_loop. revert t url hdrs body.
  apply (while_loop_invariant cfg w
           (fun st => forall t url hdrs body, In (EvPost t url hdrs body) (trace st) ->
                                              url = POST_URL cfg /\ hdrs = request_headers cfg)).
  - intros st Hinv Hflag t url hdrs body Hin.
    apply in_loop_body_trace in Hin
      as [Hin | [Heq | [(t' & b & Heq) | [(t' & d & Heq) | [(t' & s & Heq) | (t' & Heq & _)]]]]];
      try discriminate.
    + now apply (Hinv t url hdrs body).
    + injection Heq as -> -> -> ->. auto.
  - intros t url hdrs body [].
Qed.

(** C9: every request of a run carries [Content-Type: application/json],
    and carries an [Authorization] header exactly when [API_TOKEN] is a
    non-empty string, the header then reading [Bearer] and the token; with
    [API_TOKEN] unset or set to the empty string there is none. *)
Theorem authorization_iff_token_nonempty (cfg : Config) (w : World) (fuel : nat)
    (t : N) (url : string) (hdrs : gmap string string) (body : Payload) :
  In (EvPost t url hdrs body) (trace (fst (_post_loop cfg w fuel))) ->
  hdrs !! "Content-Type"%string = Some "application/json"%string /\
  (forall v, hdrs !! "Authorization"%string = Some v <->
             exists tok, API_TOKEN cfg = Some tok /\ tok <> EmptyString /\
                         v = ("Bearer " ++ tok)%string) /\
  (hdrs !! "Authorization"%string = None <->
     API_TOKEN cfg = None \/ API_TOKEN cfg = Some EmptyString).
Proof.
  intros Hin. apply posts_in_run in Hin as [_ ->].
  split; [apply headers_content_type|]. split.
  - intros v. apply headers_authorization.
  - apply headers_no_authorization.
Qed.

(** ** The scenarios, run *)

(** Seven failed deliveries in a row leave the backoff at 60, not 128. *)
Example seven_failures_backoff_60 :
  let r := _post_loop default_config (collector_down None) 7 in
  cycle (fst r) = 7%nat /\ consecutive_failures (collector_down None) 7 = 7%nat /\
  backoff (fst r) = 60.
Proof. vm_compute. auto. Qed.

(** The delays before the sleeps of the first eight failures. *)
Example backoff_sequence :
  map (fun n => backoff (fst (_post_loop default_config (collector_down None) n)))
      (seq 0 9)
  = [1; 2; 4; 8; 16; 32; 60; 60; 60].
Proof. vm_compute. reflexivity. Qed.

(** The end-to-end scenario with a one-second interval: two deliveries, a
    refused connection that is followed by a sleep of the backoff and then of
    the interval, and a delivery that resets the backoff. *)
Example end_to_end_times :
  let r := _post_loop empty_token_config (collector_flaky None) 4 in
  map (fun e => (ev_time e, starts_work e)) (trace (fst r))
  = [(0, true); (300, true); (350, false);
     (1350, true); (1650, true); (1700, false);
     (2700, true); (3000, true); (3050, false); (3050, true); (4050, false);
     (5050, true); (5350, true); (5400, false)] /\
  backoff (fst (_post_loop empty_token_config (collector_flaky None) 3)) = 2 /\
  backoff (fst r) = 1.
Proof. vm_compute. auto. Qed.

(** [API_TOKEN] set to the empty string: no [Authorization] header. *)
Example empty_token_no_authorization :
  API_TOKEN empty_token_config = Some EmptyString /\
  request_headers empty_token_config !! "Authorization"%string = None /\
  request_headers (load_config {[ "API_TOKEN"%string := "s3cret"%string ]} None 30 40)
    !! "Authorization"%string = Some "Bearer s3cret"%string.
Proof. vm_compute. auto. Qed.

(** The first cycle against a collector that is down. *)
Lemma failed_attempt_witness :
  exists steps : nat,
    trace (loop_body default_config (collector_down None) initial_state) =
      trace initial_state
      ++ [EvSample 0;
          EvPost 300 (POST_URL default_config) (request_headers default_config)
            (_collect_metrics default_config quiet_host);
          EvStderr 350 (PostError "connection refused");
          EvBackoffSleep 350 1]
      ++ interval_events 1350 steps /\
    now (loop_body default_config (collector_down None) initial_state)
    = 1350 + 1000 * N.of_nat steps /\
    (_shutdown (collector_down None)
       (now (loop_body default_config (collector_down None) initial_state)) = false ->
     steps = 30%nat /\
     now (loop_body default_config (collector_down None) initial_state) = 350 + 1000 * 1 + 1000 * 30).
Proof.
  exact (failed_attempt_sleeps_backoff_then_interval
           default_config (collector_down None) initial_state eq_refl).
Defined.

(** A signal at 1.5 s, during the second step of the first interval sleep. *)
Lemma interval_sleep_witness :
  1350 < 1500 /\
  snd (_post_loop default_config (collector_up (Some 1500)) 5) = true /\
  now (fst (_post_loop default_config (collector_up (Some 1500)) 5)) = 1350 + 1000 /\
  now (fst (_post_loop default_config (collector_up (Some 1500)) 5)) - 1500 < 1000 /\
  (forall t', In (EvIntervalSleep t')
                (trace (fst (_post_loop default_config (collector_up (Some 1500)) 5))) ->
              t' <= 1350).
Proof.
  apply (interval_sleep_stops_within_a_second
           default_config (collector_up (Some 1500)) 5 1500 1350).
  - reflexivity.
  - cbn. right. right. right. left. reflexivity.
  - vm_compute. discriminate.
Defined.

(** The first request of a run with an empty token. *)
Lemma authorization_witness :
  request_headers empty_token_config !! "Content-Type"%string = Some "application/json"%string /\
  (forall v, request_headers empty_token_config !! "Authorization"%string = Some v <->
             exists tok, API_TOKEN empty_token_config = Some tok /\ tok <> EmptyString /\
                         v = ("Bearer " ++ tok)%string) /\
  (request_headers empty_token_config !! "Authorization"%string = None <->
     API_TOKEN empty_token_config = None \/ API_TOKEN empty_token_config = Some EmptyString).
Proof.
  apply (authorization_iff_token_nonempty
           empty_token_config (collector_up None) 1
           300 (POST_URL empty_token_config) (request_headers empty_token_config)
           (_collect_metrics empty_token_config quiet_host)).
  cbn. right. left. reflexivity.
Defined.

(** * Further properties *)

(** ** Process names *)

Local Open Scope Z_scope.

Lemma proc_name_nonempty (name : option string) (cmdline : option (list string)) :
  proc_name name cmdline <> EmptyString.
Proof.
  unfold proc_name.
  match goal with |- (if Py.truthy ?c then _ else _) <> _ => destruct c eqn:Hc end;
    cbn [Py.truthy]; discriminate.
Qed.

Lemma in_firstn (A : Type) (n : nat) (l : list A) (x : A) : In x (firstn n l) -> In x l.
Proof.
  revert l. induction n as [|n IH]; intros [|y l]; cbn; try tauto.
  intros [-> | Hin]; auto.
Qed.

Lemma names_loop_prefix (limit : Z) (procs : list ProcEntry) (names : list string) :
  (length names < Z.to_nat (Z.max limit 1))%nat ->
  names_loop limit procs names
  = names ++ firstn (Z.to_nat (Z.max limit 1) - length names) (listed_names procs).
Proof.
  revert names. induction procs as [|[name cmdline|] rest IH]; intros names Hlen.
  - cbn. now rewrite firstn_nil, app_nil_r.
  - cbn [names_loop listed_names flat_map app].
    destruct (Z.geb_spec (Z.of_nat (length (names ++ [proc_name name cmdline]))) limit)
      as [Hge | Hlt]; rewrite length_app in *; cbn [length] in *.
    + replace (Z.to_nat (Z.max limit 1) - length names)%nat with 1%nat by lia.
      cbn [firstn]. reflexivity.
    + rewrite IH by (rewrite length_app; cbn [length]; lia).
      rewrite length_app. cbn [length].
      replace (Z.to_nat (Z.max limit 1) - length names)%nat
        with (S (Z.to_nat (Z.max limit 1) - (length names + 1)))%nat by lia.
      cbn [firstn]. now rewrite <- app_assoc.
  - cbn [names_loop listed_names flat_map app]. now apply IH.
Qed.

(** X1: the list of process names is the first [max(limit, 1)] names of the
    processes that can be read, in iteration order: a process that raises
    [NoSuchProcess] or [AccessDenied] is skipped and does not count towards
    the limit. *)
Theorem running_process_names_prefix (limit : Z) (procs : list ProcEntry) :
  _running_process_names limit procs
  = firstn (Z.to_nat (Z.max limit 1)) (listed_names procs).
Proof.
  unfold _running_process_names. rewrite names_loop_prefix by (cbn [length]; lia).
  cbn [length app]. now rewrite Nat.sub_0_r.
Qed.

(** X2: no listed process name is the empty string: a process without a
    name and without a first command-line argument is listed as
    ["unknown"]. *)
Theorem process_names_never_empty (limit : Z) (procs : list ProcEntry) :
  Forall (fun name => name <> EmptyString) (_running_process_names limit procs) /\
  proc_name None None = "unknown"%string /\
  proc_name (Some EmptyString) (Some []) = "unknown"%string /\
  proc_name (Some EmptyString) (Some [EmptyString]) = "unknown"%string.
Proof.
  split; [|repeat split].
  unfold _running_process_names.
  rewrite names_loop_prefix by (cbn [length]; lia).
  cbn [app]. apply List.Forall_forall. intros name Hin.
  apply in_firstn in Hin. unfold listed_names in Hin.
  apply in_flat_map in Hin as ([n c|] & _ & Hin); cbn [In] in Hin;
    [destruct Hin as [<- | []]; apply proc_name_nonempty | destruct Hin].
Qed.

(** X3: the [running_processes] field is a JSON text that decodes to the
    list of names, whatever characters the names hold. *)
Theorem running_processes_decodes (cfg : Config) (h : Host) :
  Json.loads (running_processes (_collect_metrics cfg h))
  = Some (_running_process_names (PROCESS_LIMIT cfg) (processes h)).
Proof. unfold _collect_metrics. cbn [running_processes]. apply JsonFacts.loads_dumps. Qed.

(** ** Disk usage *)

Lemma unique_mountpoints_spec (h : Host) (m : string) :
  m ∈ _unique_mountpoints h <->
  m = "/"%string \/
  exists p, In p (partitions h) /\ is_pseudo p = false /\
            readable h (mountpoint p) = true /\ mountpoint p = m.
Proof.
  unfold _unique_mountpoints. rewrite elem_of_union, elem_of_singleton, mounts_loop_spec.
  split.
  - intros [H | [H | H]]; [left; exact H | | right; exact H].
    exfalso. revert H. apply not_elem_of_empty.
  - intros [H | H]; [left; exact H | right; right; exact H].
Qed.

Lemma Zsum_nonneg (f : string -> Z) (l : list string) :
  (forall m, 0 <= f m) -> 0 <= Zsum f l.
Proof.
  intros Hf. induction l as [|m l IH]; cbn; [lia|].
  specialize (Hf m). unfold Zsum in IH. lia.
Qed.

(** X4: the disk total depends on the partitions only through the set of
    them: listing the same partitions in another order, or some of them more
    than once, gives the same total. *)
Theorem disk_total_ignores_order_and_duplicates (h : Host) (ps : list Partition) :
  (forall p, In p ps <-> In p (partitions h)) ->
  _disk_used_bytes (with_partitions h ps) = _disk_used_bytes h.
Proof.
  intros Hsame.
  assert (Hset : _unique_mountpoints (with_partitions h ps) = _unique_mountpoints h).
  { apply leibniz_equiv. intros m. rewrite !unique_mountpoints_spec.
    cbn [with_partitions partitions readable].
    split; (intros [H | (p & Hp & Hrest)]; [left; exact H | right; exists p]);
      (split; [apply Hsame; exact Hp | exact Hrest]). }
  rewrite !disk_used_is_sum, Hset. reflexivity.
Qed.

(** X5: when every partition is dropped by one of the two filters, and so
    also when there is no partition at all, the total is the usage of the
    root alone, or 0 when [psutil.disk_usage] raises on the root. *)
Theorem disk_total_falls_back_to_root (h : Host) :
  (forall p, In p (partitions h) -> is_pseudo p = true \/ readable h (mountpoint p) = false) ->
  _unique_mountpoints h = {[ "/"%string ]} /\
  _disk_used_bytes h = used_or_skipped h "/".
Proof.
  intros Hdropped.
  assert (Hset : _unique_mountpoints h = {[ "/"%string ]}).
  { apply leibniz_equiv. intros m. rewrite unique_mountpoints_spec, elem_of_singleton.
    split; [|now left].
    intros [H | (p & Hp & Hpseudo & Hread & _)]; [exact H|].
    destruct (Hdropped p Hp); congruence. }
  split; [exact Hset|].
  rewrite disk_used_is_sum, Hset, elements_singleton. cbn. lia.
Qed.

(** X6: when no reported usage is negative the total is not negative, and
    the clamp of the payload leaves it as it is. *)
Theorem disk_total_sent_unclamped (cfg : Config) (h : Host) :
  (forall m used, disk_usage h m = Some used -> 0 <= used) ->
  0 <= _disk_used_bytes h /\
  disk_space_used (_collect_metrics cfg h) = _disk_used_bytes h.
Proof.
  intros Hpos.
  assert (Htotal : 0 <= _disk_used_bytes h).
  { rewrite disk_used_is_sum. apply Zsum_nonneg. intros m. unfold used_or_skipped.
    destruct (disk_usage h m) as [used|] eqn:Hm; [now apply (Hpos m) | lia]. }
  split; [exact Htotal|].
  unfold _collect_metrics. cbn [disk_space_used]. lia.
Qed.

(** ** The collector URL *)

Lemma rstrip_slash_no_trailing (s : string) : no_trailing_slash (Py.rstrip_slash s).
Proof.
  unfold no_trailing_slash. induction s as [|c s IH]; intros r.
  - destruct r; discriminate.
  - cbn [Py.rstrip_slash]. destruct (Py.rstrip_slash s) as [|d t] eqn:Hs.
    + destruct (Ascii.eqb_spec c "/"%char) as [-> | Hne].
      * destruct r; discriminate.
      * destruct r as [|x [|y r]]; try discriminate.
        intros [= Heq]. contradiction.
    + destruct r as [|x r]; [discriminate|].
      change (String x r ++ "/")%string with (String x (r ++ "/"))%string.
      intros [= _ Heq]. now apply (IH r).
Qed.

Lemma rstrip_slash_app_slash (s : string) :
  Py.rstrip_slash (s ++ "/") = Py.rstrip_slash s.
Proof.
  induction s as [|c s IH]; [reflexivity|].
  change (String c s ++ "/")%string with (String c (s ++ "/"))%string.
  cbn [Py.rstrip_slash]. now rewrite IH.
Qed.

(** X7: neither [BASE_URL] nor [API_PREFIX] ends with a slash, and a slash
    added at the end of [HOMELAB_DB_BASE_URL] or of [HOMELAB_DB_API_PREFIX]
    does not change the URL that is posted to. *)
Theorem trailing_slash_does_not_change_post_url
    (env : gmap string string) (nodename : option string) (post_interval process_limit : Z)
    (base : string) (api_prefix : string) :
  let cfg := load_config env nodename post_interval process_limit in
  let url e := POST_URL (load_config e nodename post_interval process_limit) in
  no_trailing_slash (BASE_URL cfg) /\
  no_trailing_slash (API_PREFIX cfg) /\
  url (<[ "HOMELAB_DB_BASE_URL"%string := (base ++ "/")%string ]> env)
  = url (<[ "HOMELAB_DB_BASE_URL"%string := base ]> env) /\
  url (<[ "HOMELAB_DB_API_PREFIX"%string := (api_prefix ++ "/")%string ]> env)
  = url (<[ "HOMELAB_DB_API_PREFIX"%string := api_prefix ]> env).
Proof.
  cbn zeta. split; [apply rstrip_slash_no_trailing|]. split; [apply rstrip_slash_no_trailing|].
  unfold POST_URL, load_config, Py.getenv_default.
  cbn [BASE_URL API_PREFIX ENDPOINT].
  rewrite !lookup_insert_eq, !lookup_insert_ne by discriminate.
  now rewrite !rstrip_slash_app_slash.
Qed.

(** ** The delivery loop *)

Local Open Scope N_scope.

(** One iteration, whole: the events of the attempt, then [steps] one-second
    sleeps. *)
Lemma loop_body_shape (cfg : Config) (w : World) (st : State) :
  exists steps : nat,
    (steps <= Z.to_nat (POST_INTERVAL cfg))%nat /\
    loop_body cfg w st =
      {| now := now (after_attempt cfg w st) + 1000 * N.of_nat steps;
         backoff := if is_failure (outcome_at w (cycle st))
                    then N.min (backoff st * 2) backoff_max else 1;
         cycle := S (cycle st);
         trace := trace st ++ attempt_events cfg w st
                  ++ interval_events (now (after_attempt cfg w st)) steps |} /\
    (steps = Z.to_nat (POST_INTERVAL cfg) \/
     _shutdown w (now (after_attempt cfg w st) + 1000 * N.of_nat steps) = true).
Proof.
  rewrite loop_body_unfold.
  destruct (interval_sleep_spec w (Z.to_nat (POST_INTERVAL cfg)) (after_attempt cfg w st))
    as (steps & Hle & Heq & _ & Hstop).
  exists steps. split; [exact Hle|]. split; [|exact Hstop].
  rewrite Heq. unfold next_cycle. cbn [now backoff cycle trace].
  pose proof (after_attempt_spec cfg w st) as Ha. cbn zeta in Ha.
  unfold attempt_events.
  destruct (is_failure (outcome_at w (cycle st))); rewrite Ha; cbn [now backoff cycle trace];
    now rewrite <- app_assoc.
Qed.

Lemma after_attempt_now (cfg : Config) (w : World) (st : State) :
  now (after_attempt cfg w st)
  = now st + (300 + sample_extra_ms w (cycle st)) + post_ms w (cycle st)
    + (if is_failure (outcome_at w (cycle st)) then 1000 * backoff st else 0).
Proof.
  pose proof (after_attempt_spec cfg w st) as Ha. cbn zeta in Ha. rewrite Ha.
  destruct (is_failure (outcome_at w (cycle st))); cbn [now]; lia.
Qed.

Lemma while_loop_returned (cfg : Config) (w : World) (fuel : nat) (st : State) :
  snd (while_loop cfg w fuel st) = true ->
  _shutdown w (now (fst (while_loop cfg w fuel st))) = true.
Proof.
  revert st. induction fuel as [|fuel IH]; intros st; cbn [while_loop];
    destruct (_shutdown w (now st)) eqn:Hflag; cbn [fst snd]; auto; discriminate.
Qed.




(** X9: a loop that has returned has seen the flag set: a signal was
    delivered, at the time of the return or before. *)
Theorem returns_only_after_signal (cfg : Config) (w : World) (fuel : nat) :
  snd (_post_loop cfg w fuel) = true ->
  exists ts, signal_at w = Some ts /\ ts <= now (fst (_post_loop cfg w fuel)).
Proof.
  intros Hret. apply while_loop_returned in Hret. unfold _post_loop.
  unfold _shutdown in Hret. destruct (signal_at w) as [ts|]; [|discriminate].
  exists ts. split; [reflexivity | now apply N.leb_le].
Qed.


Lemma filter_interval_events (p : Event -> bool) (t : N) (n : nat) :
  (forall t', p (EvIntervalSleep t') = false) ->
  List.filter p (interval_events t n) = [].
Proof.
  intros Hp. unfold interval_events.
  induction (seq 0 n) as [|k l IH]; cbn [map List.filter]; [reflexivity|].
  now rewrite Hp.
Qed.

Lemma posted_bodies_interval_events (t : N) (n : nat) :
  posted_bodies (interval_events t n) = [].
Proof.
  unfold interval_events, posted_bodies.
  induction (seq 0 n) as [|k l IH]; cbn [map flat_map app]; [reflexivity | exact IH].
Qed.

Lemma posted_bodies_attempt_events (cfg : Config) (w : World) (st : State) :
  posted_bodies (attempt_events cfg w st) = [_collect_metrics cfg (host_at w (cycle st))].
Proof.
  unfold attempt_events. now destruct (is_failure (outcome_at w (cycle st))).
Qed.

(** X11: a run that has completed [n] cycles has sampled [n] times and
    posted [n] bodies, the k-th body being the payload built from the k-th
    sampling: a failed delivery is never sent again, the next cycle posts a
    new sample. *)
Theorem one_fresh_payload_per_cycle (cfg : Config) (w : World) (fuel : nat) :
  let st := fst (_post_loop cfg w fuel) in
  posted_bodies (trace st)
  = map (fun k => _collect_metrics cfg (host_at w k)) (seq 0 (cycle st)) /\
  length (List.filter is_sample (trace st)) = cycle st /\
  length (List.filter is_post (trace st)) = cycle st.
Proof.
  cbn zeta. unfold _post_loop.
  apply (while_loop_invariant cfg w
           (fun st => posted_bodies (trace st)
                      = map (fun k => _collect_metrics cfg (host_at w k)) (seq 0 (cycle st)) /\
                      length (List.filter is_sample (trace st)) = cycle st /\
                      length (List.filter is_post (trace st)) = cycle st)).
  - intros st (Hbodies & Hsamples & Hposts) _.
    destruct (loop_body_shape cfg w st) as (steps & _ & Heq & _).
    rewrite Heq. cbn [trace cycle]. split; [|split].
    + unfold posted_bodies in *. rewrite !flat_map_app.
      fold (posted_bodies (interval_events (now (after_attempt cfg w st)) steps)).
      fold (posted_bodies (attempt_events cfg w st)).
      rewrite posted_bodies_interval_events, posted_bodies_attempt_events, app_nil_r.
      rewrite Hbodies, seq_S, map_app. reflexivity.
    + rewrite !List.filter_app, !length_app, Hsamples.
      rewrite filter_interval_events by reflexivity.
      unfold attempt_events. destruct (is_failure (outcome_at w (cycle st))); cbn; lia.
    + rewrite !List.filter_app, !length_app, Hposts.
      rewrite filter_interval_events by reflexivity.
      unfold attempt_events. destruct (is_failure (outcome_at w (cycle st))); cbn; lia.
  - repeat split.
Qed.




(** X13: in a cycle whose delivery succeeds nothing is written to stderr
    and there is no backoff sleep: the interval sleep starts as soon as the
    response is in, the backoff is 1 afterwards, and when the next cycle
    starts the cycle has waited the whole interval and nothing more. *)
Theorem successful_cycle_waits_interval_only (cfg : Config) (w : World) (st : State) :
  is_failure (outcome_at w (cycle st)) = false ->
  let k := cycle st in
  let t_post := now st + (300 + sample_extra_ms w k) in
  let t_interval := t_post + post_ms w k in
  exists steps : nat,
    trace (loop_body cfg w st) =
      trace st
      ++ [EvSample (now st);
          EvPost t_post (POST_URL cfg) (request_headers cfg) (_collect_metrics cfg (host_at w k))]
      ++ interval_events t_interval steps /\
    backoff (loop_body cfg w st) = 1 /\
    (_shutdown w (now (loop_body cfg w st)) = false ->
       steps = Z.to_nat (POST_INTERVAL cfg) /\
       now (loop_body cfg w st) = t_interval + 1000 * Z.to_N (POST_INTERVAL cfg)).
Proof.
  intros Hok. cbn zeta.
  destruct (loop_body_shape cfg w st) as (steps & _ & Heq & Hstop).
  pose proof (after_attempt_now cfg w st) as Hnow. rewrite Hok, N.add_0_r in Hnow.
  rewrite Heq. cbn [trace backoff now]. unfold attempt_events. rewrite Hok, Hnow.
  exists steps. split; [reflexivity|]. split; [reflexivity|].
  intros Hflag. rewrite Hnow in Hstop.
  destruct Hstop as [-> | Hstop]; [|congruence].
  split; [reflexivity|]. rewrite Z_nat_N. reflexivity.
Qed.

Lemma from_time_before (ts t : N) (tr : list Event) :
  Forall (fun e => ev_time e <= t) tr -> t < ts -> from_time ts tr = [].
Proof.
  intros Hall Hlt. unfold from_time.
  induction Hall as [|e tr He _ IH]; cbn [List.filter]; [reflexivity|].
  destruct (N.leb_spec ts (ev_time e)); [lia | exact IH].
Qed.

Lemma from_time_app (ts : N) (a b : list Event) :
  from_time ts (a ++ b) = from_time ts a ++ from_time ts b.
Proof. unfold from_time. apply List.filter_app. Qed.

Lemma filter_length_le (p : Event -> bool) (tr : list Event) :
  (length (List.filter p tr) <= length tr)%nat.
Proof.
  induction tr as [|e tr IH]; cbn [List.filter length]; [lia|].
  destruct (p e); cbn [length]; lia.
Qed.

Lemma filter_from_time_length (p : Event -> bool) (ts : N) (tr : list Event) :
  (length (List.filter p (from_time ts tr)) <= length (List.filter p tr))%nat.
Proof.
  unfold from_time. induction tr as [|e tr IH]; cbn [List.filter length]; [lia|].
  destruct (ts <=? ev_time e); cbn [List.filter]; destruct (p e); cbn [length]; lia.
Qed.

Lemma attempt_events_counts (cfg : Config) (w : World) (st : State) :
  length (List.filter is_post (attempt_events cfg w st)) = 1%nat /\
  (length (List.filter is_backoff_sleep (attempt_events cfg w st)) <= 1)%nat /\
  List.filter is_sample (attempt_events cfg w st) = [EvSample (now st)].
Proof.
  unfold attempt_events. destruct (is_failure (outcome_at w (cycle st))); cbn; auto.
Qed.

Lemma loop_body_times (cfg : Config) (w : World) (st : State) :
  Forall (fun e => ev_time e <= now st) (trace st) ->
  Forall (fun e => ev_time e <= now (loop_body cfg w st)) (trace (loop_body cfg w st)).
Proof.
  intros Hold.
  destruct (loop_body_shape cfg w st) as (steps & _ & Heq & _).
  pose proof (after_attempt_now cfg w st) as Hnow.
  rewrite Heq. cbn [trace now]. rewrite !Forall_app. split; [|split].
  - eapply Forall_impl; [exact Hold|]. intros e He. cbn beta in *. lia.
  - unfold attempt_events.
    destruct (is_failure (outcome_at w (cycle st)));
      repeat (constructor; [cbn [ev_time]; lia|]); constructor.
  - apply List.Forall_forall. intros e Hin.
    apply in_interval_events in Hin as (j & Hj & ->). cbn [ev_time]. lia.
Qed.

(** X14: once the signal is in, no sampling starts any more, and at most
    one POST and at most one backoff sleep still start, those of the cycle
    that was under way. *)
Theorem at_most_one_post_after_signal (cfg : Config) (w : World) (fuel : nat) (ts : N) :
  signal_at w = Some ts ->
  let late := from_time ts (trace (fst (_post_loop cfg w fuel))) in
  List.filter is_sample late = [] /\
  (length (List.filter is_post late) <= 1)%nat /\
  (length (List.filter is_backoff_sleep late) <= 1)%nat.
Proof.
  intros Hsig. cbn zeta. unfold _post_loop.
  assert (Hinv :
    (fun st => Forall (fun e => ev_time e <= now st) (trace st) /\
               List.filter is_sample (from_time ts (trace st)) = [] /\
               (length (List.filter is_post (from_time ts (trace st))) <= 1)%nat /\
               (length (List.filter is_backoff_sleep (from_time ts (trace st))) <= 1)%nat)
      (fst (while_loop cfg w fuel initial_state))).
  { apply (while_loop_invariant cfg w).
    - intros st (Htimes & _) Hflag.
      split; [now apply loop_body_times|].
      assert (Hlt : now st < ts).
      { unfold _shutdown in Hflag. rewrite Hsig in Hflag. now apply N.leb_gt in Hflag. }
      destruct (loop_body_shape cfg w st) as (steps & _ & Heq & _).
      destruct (attempt_events_counts cfg w st) as (Hposts & Hsleeps & Hsamples).
      rewrite Heq. cbn [trace].
      rewrite !from_time_app, (from_time_before ts (now st) (trace st) Htimes Hlt).
      cbn [app]. rewrite !List.filter_app, !length_app.
      pose proof (filter_from_time_length is_post ts (attempt_events cfg w st)).
      pose proof (filter_from_time_length is_backoff_sleep ts (attempt_events cfg w st)).
      pose proof (filter_from_time_length is_post ts
                    (interval_events (now (after_attempt cfg w st)) steps)) as Hip.
      pose proof (filter_from_time_length is_backoff_sleep ts
                    (interval_events (now (after_attempt cfg w st)) steps)) as Hib.
      rewrite filter_interval_events in Hip, Hib by reflexivity. cbn [length] in Hip, Hib.
      split; [|split; lia].
      assert (Hs1 : List.filter is_sample (from_time ts (attempt_events cfg w st)) = []).
      { unfold attempt_events, from_time.
        destruct (is_failure (outcome_at w (cycle st))); cbn [List.filter ev_time];
          destruct (N.leb_spec ts (now st)); try lia;
          repeat match goal with
                 | |- context [?a <=? ?b] => destruct (a <=? b)
                 end; reflexivity. }
      assert (Hs2 : List.filter is_sample
                      (from_time ts (interval_events (now (after_attempt cfg w st)) steps)) = []).
      { pose proof (filter_from_time_length is_sample ts
                      (interval_events (now (after_attempt cfg w st)) steps)) as Hl.
        rewrite filter_interval_events in Hl by reflexivity.
        cbn [length] in Hl. apply List.length_zero_iff_nil. lia. }
      now rewrite Hs1, Hs2.
    - cbn. repeat split; try constructor; lia. }
  destruct Hinv as (_ & Hs & Hp & Hb). auto.
Qed.

(** ** The further properties, on the scenarios *)

(** The partitions of the two-disk host in another order, one of them twice. *)
Lemma disk_total_order_witness :
  _disk_used_bytes
    (with_partitions two_disk_host [data_partition; root_partition; data_partition])
  = _disk_used_bytes two_disk_host.
Proof.
  apply (disk_total_ignores_order_and_duplicates two_disk_host
           [data_partition; root_partition; data_partition]).
  intros p. cbn. tauto.
Defined.

(** A host that lists only [/run] and [/proc]. *)
Lemma disk_total_fallback_witness :
  _unique_mountpoints pseudo_only_host = {[ "/"%string ]} /\
  _disk_used_bytes pseudo_only_host = used_or_skipped pseudo_only_host "/".
Proof.
  apply (disk_total_falls_back_to_root pseudo_only_host).
  intros p [<- | [<- | []]]; left; reflexivity.
Defined.

Lemma disk_total_unclamped_witness :
  (0 <= _disk_used_bytes two_disk_host)%Z /\
  disk_space_used (_collect_metrics default_config two_disk_host)
  = _disk_used_bytes two_disk_host.
Proof.
  apply (disk_total_sent_unclamped default_config two_disk_host).
  intros m used. cbn. destruct (String.eqb m "/"); intros [= <-]; lia.
Defined.


(** A signal at 1.5 s: the loop has returned within five iterations. *)
Lemma returns_after_signal_witness :
  exists ts,
    signal_at (collector_up (Some 1500)) = Some ts /\
    ts <= now (fst (_post_loop default_config (collector_up (Some 1500)) 5)).
Proof.
  apply (returns_only_after_signal default_config (collector_up (Some 1500)) 5).
  reflexivity.
Defined.


(** The first cycle against a collector that answers 200. *)
Lemma successful_cycle_witness :
  exists steps : nat,
    trace (loop_body default_config (collector_up None) initial_state) =
      trace initial_state
      ++ [EvSample 0;
          EvPost 300 (POST_URL default_config) (request_headers default_config)
            (_collect_metrics default_config quiet_host)]
      ++ interval_events 350 steps /\
    backoff (loop_body default_config (collector_up None) initial_state) = 1 /\
    (_shutdown (collector_up None)
       (now (loop_body default_config (collector_up None) initial_state)) = false ->
     steps = 30%nat /\
     now (loop_body default_config (collector_up None) initial_state) = 350 + 1000 * 30).
Proof.
  exact (successful_cycle_waits_interval_only
           default_config (collector_up None) initial_state eq_refl).
Defined.

(** A signal at 0.1 s, during the first sampling, with the collector down. *)
Lemma one_post_after_signal_witness :
  List.filter is_sample
    (from_time 100%N (trace (fst (_post_loop default_config (collector_down (Some 100%N)) 1)))) = [] /\
  (length (List.filter is_post
     (from_time 100%N (trace (fst (_post_loop default_config (collector_down (Some 100%N)) 1)))))
   <= 1)%nat /\
  (length (List.filter is_backoff_sleep
     (from_time 100%N (trace (fst (_post_loop default_config (collector_down (Some 100%N)) 1)))))
   <= 1)%nat.
Proof.
  exact (at_most_one_post_after_signal
           default_config (collector_down (Some 100%N)) 1 100%N eq_refl).
Defined.
